(** * docker_charon.encoder: planning and assembling the payload archive

    A shallow embedding of [src/docker_charon/encoder.py].  The registry
    (dxf) is a record of functions, the archive and stderr are an event
    trace, and exceptions are the left summand of the result. *)

From Stdlib Require Import Ascii String.
From stdpp Require Import base option list strings gmap fin_maps.

Set Warnings "-clear-no-such-hyp".

Local Open Scope string_scope.
Local Open Scope list_scope.
Local Open Scope stdpp_scope.

(** ** Data model *)

(** [Blob]: a content-addressed layer or config, seen in a repository. *)
Record Blob := mkBlob { digest : string; repository : string }.

(** The two placement classes stored in [blobs_paths]. *)
Inductive BlobPlacement :=
| BlobPathInZip (zip_path : string)
| BlobLocationInRegistry (registry_repository : string).

(** A Python value that is either a [str] or a [dict] of strings: the two
    shapes [Manifest.content] takes (one manifest body, or an index from
    platform key to manifest body). *)
Inductive pyval :=
| Str (s : string)
| Dict (d : gmap string string).

Record Manifest := mkManifest { docker_image_name : string; content : pyval }.

Inductive exn :=
| RegistryError (reason : string)
| KeyError (key : string)
| TypeError
| IndexError.

(** What [pull_blob] hands back: the chunks its iterator yields and, when
    the stream breaks, the exception raised after the last chunk. *)
Record blob_stream := mkStream { chunks : list string; broken : option exn }.

(** The registry client.  [resolve image] stands for building
    [Manifest(dxf_base, image, PayloadSide.ENCODER)] and calling
    [get_list_of_blobs()] on it; [pull_blob repository digest] for
    [DXF.from_base(dxf_base, repository).pull_blob(digest, size=True)]. *)
Record DXFBase := mkDXF {
  resolve : string → exn + (pyval * list Blob);
  pull_blob : string → string → exn + (blob_stream * N)
}.

(** What the [print] calls write to stderr, one message per call, kept
    structured (the text is not modelled; the progress text of line 32
    ends in a space, so it shares its line with the message that follows). *)
Inductive message :=
| Progress (blob_index : nat) (blobs_to_pull : list Blob)
| SkippingPlaced (blob : Blob) (placed : BlobPlacement)
| SkippingInDestination (blob : Blob) (dest_repository : string)
| PullingBlob (blob : Blob)
| SkippingImage (docker_image : string).

(** Everything the encoder does to the outside world, in order.  The
    archive is a store addressed by path: [ZipEntry path data] is one entry
    added to it (zipfile records the entry when the handle is closed, also
    when the write was interrupted). *)
Inductive event :=
| Stderr (m : message)
| ResolveManifest (docker_image : string)
| PullBlob (blob_repository blob_digest : string)
| ZipEntry (path data : string).

#[global] Instance Blob_eq_dec : EqDecision Blob.
Proof. solve_decision. Defined.
#[global] Instance BlobPlacement_eq_dec : EqDecision BlobPlacement.
Proof. solve_decision. Defined.
#[global] Instance exn_eq_dec : EqDecision exn.
Proof. solve_decision. Defined.

(** ** Effects: a trace of events and a result or an exception *)

Definition io (A : Type) : Type := list event * (exn + A).

#[global] Instance io_ret : MRet io := λ A a, ([], inr a).

#[global] Instance io_bind : MBind io := λ A B f m,
  match m with
  | (t, inl e) => (t, inl e)
  | (t, inr a) => let '(t', r) := f a in (t ++ t', r)
  end.

Definition emit (e : event) : io unit := ([e], inr tt).
Definition raise {A} (e : exn) : io A := ([], inl e).
Definition print (m : message) : io unit := emit (Stderr m).

Definition trace {A} (m : io A) : list event := m.1.
Definition outcome {A} (m : io A) : exn + A := m.2.

(** Projections of a trace. *)
Definition pulls (t : list event) : list (string * string) :=
  omap (λ e, match e with PullBlob r d => Some (r, d) | _ => None end) t.

Definition zip_entries (t : list event) : list (string * string) :=
  omap (λ e, match e with ZipEntry p c => Some (p, c) | _ => None end) t.

Definition resolutions (t : list event) : list string :=
  omap (λ e, match e with ResolveManifest i => Some i | _ => None end) t.

Definition is_stderr (e : event) : bool :=
  match e with Stderr _ => true | _ => false end.

(** ** Python operators on [str] and [dict] *)

(** [needle in haystack] on two strings: substring test. *)
Fixpoint str_contains (needle haystack : string) : bool :=
  String.prefix needle haystack ||
  match haystack with
  | EmptyString => false
  | String _ rest => str_contains needle rest
  end.

(** [key in container]. *)
Definition py_in (key : string) (container : pyval) : bool :=
  match container with
  | Str s => str_contains key s
  | Dict d => bool_decide (is_Some (d !! key))
  end.

(** [container[key]]: a [str] cannot be indexed by a [str]. *)
Definition py_getitem (container : pyval) (key : string) : io pyval :=
  match container with
  | Str _ => raise TypeError
  | Dict d =>
      match d !! key with
      | Some v => mret (Str v)
      | None => raise (KeyError key)
      end
  end.

(** [zip_file.writestr(arcname, data)]: the name is inspected at its last
    character; data that is neither [str] nor bytes fails inside the
    opened entry, which is then closed empty.  The archive itself is taken
    to accept every entry: a closed archive or a failing file underneath
    ([ValueError], [OSError]) is outside the model; the theorems about
    archive contents are therefore stated for runs that return, or as
    what a run needs in order to return. *)
Definition writestr (arcname : string) (data : pyval) : io unit :=
  if decide (arcname = "") then raise IndexError
  else match data with
       | Str s => emit (ZipEntry arcname s)
       | Dict _ =>
           emit (ZipEntry arcname "");;
           raise TypeError
       end.

(** ** encoder.py *)

Fixpoint get_blob_with_same_digest (list_of_blobs : list Blob) (d : string)
  : option Blob :=
  match list_of_blobs with
  | [] => None
  | blob :: rest =>
      if decide (digest blob = d) then Some blob
      else get_blob_with_same_digest rest d
  end.

(** The tqdm bar (its output and [total_size]) is left out, and so are
    failures of the archive when the entry is opened or a chunk written:
    in the model only the pull can raise.  The properties below are stated
    accordingly: for runs that return, or as what a failing pull entails. *)
Definition download_blob_to_zip (dxf_base : DXFBase) (blob : Blob) : io string :=
  emit (PullBlob (repository blob) (digest blob));;
  match pull_blob dxf_base (repository blob) (digest blob) with
  | inl e => raise e
  | inr (bytes_iterator, total_size) =>
      let blob_path_in_zip := "blobs/" +:+ digest blob in
      emit (ZipEntry blob_path_in_zip (String.concat "" (chunks bytes_iterator)));;
      match broken bytes_iterator with
      | Some e => raise e
      | None => mret blob_path_in_zip
      end
  end.

(** One turn of the loop of [add_blobs_to_zip].  A [Blob] is a truthy
    object, so the test of line 40 is whether a blob was found. *)
Definition add_blob_to_zip (dxf_base : DXFBase)
    (blobs_to_pull blobs_already_transferred : list Blob)
    (blob_index : nat) (blob : Blob) (blobs_paths : gmap string BlobPlacement)
  : io (gmap string BlobPlacement) :=
  print (Progress blob_index blobs_to_pull);;
  match blobs_paths !! digest blob with
  | Some placed =>
      print (SkippingPlaced blob placed);;
      mret blobs_paths
  | None =>
      match get_blob_with_same_digest blobs_already_transferred (digest blob) with
      | Some dest_blob =>
          print (SkippingInDestination blob (repository dest_blob));;
          mret (<[digest blob := BlobLocationInRegistry (repository dest_blob)]> blobs_paths)
      | None =>
          print (PullingBlob blob);;
          blob_path_in_zip ← download_blob_to_zip dxf_base blob;
          mret (<[digest blob := BlobPathInZip blob_path_in_zip]> blobs_paths)
      end
  end.

Fixpoint add_blobs_loop (dxf_base : DXFBase)
    (blobs_to_pull blobs_already_transferred : list Blob)
    (blob_index : nat) (remaining : list Blob)
    (blobs_paths : gmap string BlobPlacement)
  : io (gmap string BlobPlacement) :=
  match remaining with
  | [] => mret blobs_paths
  | blob :: rest =>
      blobs_paths' ← add_blob_to_zip dxf_base blobs_to_pull
                       blobs_already_transferred blob_index blob blobs_paths;
      add_blobs_loop dxf_base blobs_to_pull blobs_already_transferred
        (S blob_index) rest blobs_paths'
  end.

Definition add_blobs_to_zip (dxf_base : DXFBase)
    (blobs_to_pull blobs_already_transferred : list Blob)
  : io (gmap string BlobPlacement) :=
  add_blobs_loop dxf_base blobs_to_pull blobs_already_transferred
    0 blobs_to_pull ∅.

Definition get_manifest_and_list_of_blobs_to_pull (dxf_base : DXFBase)
    (docker_image : string) : io (Manifest * list Blob) :=
  emit (ResolveManifest docker_image);;
  match resolve dxf_base docker_image with
  | inl e => raise e
  | inr (body, blobs) => mret (mkManifest docker_image body, blobs)
  end.

Fixpoint get_manifests_loop (dxf_base : DXFBase) (docker_images : list string)
    (manifests : list Manifest) (blobs_to_pull : list Blob)
  : io (list Manifest * list Blob) :=
  match docker_images with
  | [] => mret (manifests, blobs_to_pull)
  | docker_image :: rest =>
      '(manifest, blobs) ← get_manifest_and_list_of_blobs_to_pull dxf_base docker_image;
      get_manifests_loop dxf_base rest (manifests ++ [manifest]) (blobs_to_pull ++ blobs)
  end.

Definition get_manifests_and_list_of_all_blobs (dxf_base : DXFBase)
    (docker_images : list string) : io (list Manifest * list Blob) :=
  get_manifests_loop dxf_base docker_images [] [].

Definition uniquify_step (result : list Blob) (blob : Blob) : list Blob :=
  if decide (digest blob ∈ digest <$> result) then result else result ++ [blob].

Definition uniquify_blobs (blobs : list Blob) : list Blob :=
  fold_left uniquify_step blobs [].

Fixpoint separate_loop (docker_images_to_transfer docker_images_already_transferred
    docker_images_to_transfer_with_blobs docker_images_to_skip : list string)
  : io (list string * list string) :=
  match docker_images_to_transfer with
  | [] => mret (docker_images_to_transfer_with_blobs, docker_images_to_skip)
  | docker_image :: rest =>
      if decide (docker_image ∉ docker_images_already_transferred) then
        separate_loop rest docker_images_already_transferred
          (docker_images_to_transfer_with_blobs ++ [docker_image]) docker_images_to_skip
      else
        print (SkippingImage docker_image);;
        separate_loop rest docker_images_already_transferred
          docker_images_to_transfer_with_blobs (docker_images_to_skip ++ [docker_image])
  end.

Definition separate_images_to_transfer_and_images_to_skip
    (docker_images_to_transfer docker_images_already_transferred : list string)
  : io (list string * list string) :=
  separate_loop docker_images_to_transfer docker_images_already_transferred [] [].

(** ** The payload descriptor (docker_charon.common) *)

(** Modelled from the spec: the class [PayloadDescriptor] is declared in
    docker_charon.common, not in encoder.py.  It holds the ordered image
    names to transfer, the archive path of each image's manifest, the
    placement of each blob digest and the names of the images skipped. *)
Record PayloadDescriptor := mkPayload {
  images : list string;
  manifests_paths : gmap string string;
  blobs_paths : gmap string BlobPlacement;
  skipped_images : list string
}.

(** [payload_descriptor.blobs_paths = paths] (line 140). *)
Definition set_blobs_paths (payload_descriptor : PayloadDescriptor)
    (paths : gmap string BlobPlacement) : PayloadDescriptor :=
  mkPayload (images payload_descriptor) (manifests_paths payload_descriptor)
    paths (skipped_images payload_descriptor).

Section Encoder.

(** What [docker_charon.common] supplies besides the classes above: the
    archive path of an image's manifest, the pydantic version flag and
    the two JSON serialisers it selects between. *)
Variable manifest_path : string → string.
Variable PYDANTIC_V2 : bool.
Variable model_dump_json : PayloadDescriptor → string.
Variable json : PayloadDescriptor → string.

(** Modelled from the spec: [PayloadDescriptor.from_images] is not in
    encoder.py.  The images to transfer are partitioned by exact name into
    those absent from the already-transferred list, each given the archive
    path of its manifest, and the skipped ones, which are only recorded. *)
Definition from_images
    (docker_images_to_transfer docker_images_already_transferred : list string)
  : PayloadDescriptor :=
  let needs_work :=
    filter (λ i, i ∉ docker_images_already_transferred) docker_images_to_transfer in
  let skip :=
    filter (λ i, i ∈ docker_images_already_transferred) docker_images_to_transfer in
  mkPayload docker_images_to_transfer
    (list_to_map ((λ i, (i, manifest_path i)) <$> needs_work)) ∅ skip.

(** Modelled from the spec: [get_images_not_transferred_yet] is not in
    encoder.py.  It yields, in order, the images to transfer that were not
    skipped. *)
Definition get_images_not_transferred_yet (payload_descriptor : PayloadDescriptor)
  : list string :=
  filter (λ i, i ∉ skipped_images payload_descriptor) (images payload_descriptor).

(** Lines 144-149: one manifest written into the archive. *)
Definition write_manifest (payload_descriptor : PayloadDescriptor)
    (manifest : Manifest) : io unit :=
  dest ← match manifests_paths payload_descriptor !! docker_image_name manifest with
         | Some dest => mret dest
         | None => raise (KeyError (docker_image_name manifest))
         end;
  single_manifest ←
    (if py_in "linux/amd64" (content manifest)
     then py_getitem (content manifest) "linux/amd64"
     else mret (content manifest));
  writestr dest single_manifest.

Fixpoint write_manifests (payload_descriptor : PayloadDescriptor)
    (manifests : list Manifest) : io unit :=
  match manifests with
  | [] => mret tt
  | manifest :: rest =>
      write_manifest payload_descriptor manifest;;
      write_manifests payload_descriptor rest
  end.

Definition create_zip_from_docker_images (dxf_base : DXFBase)
    (docker_images_to_transfer docker_images_already_transferred : list string)
  : io unit :=
  let payload_descriptor :=
    from_images docker_images_to_transfer docker_images_already_transferred in
  '(manifests, blobs_to_pull) ←
    get_manifests_and_list_of_all_blobs dxf_base
      (get_images_not_transferred_yet payload_descriptor);
  '(_, blobs_already_transferred) ←
    get_manifests_and_list_of_all_blobs dxf_base docker_images_already_transferred;
  paths ← add_blobs_to_zip dxf_base blobs_to_pull blobs_already_transferred;
  let payload_descriptor := set_blobs_paths payload_descriptor paths in
  write_manifests payload_descriptor manifests;;
  let payload_descriptor_json :=
    if PYDANTIC_V2 then model_dump_json payload_descriptor
    else json payload_descriptor in
  writestr "payload_descriptor.json" (Str payload_descriptor_json).

End Encoder.

(** ** Notions the properties are stated with *)

(** The blobs of [l] that open a digest not in [seen]: what the loop of
    [uniquify_blobs] appends once [seen] holds the digests of [result]. *)
Fixpoint fresh (seen : gset string) (l : list Blob) : list Blob :=
  match l with
  | [] => []
  | b :: r =>
      if decide (digest b ∈ seen) then fresh seen r
      else b :: fresh ({[digest b]} ∪ seen) r
  end.

Definition digests (l : list Blob) : gset string := list_to_set (digest <$> l).

(** The registry and archive events of a trace, stderr messages dropped. *)
Definition effects (t : list event) : list event :=
  filter (λ e, is_stderr e = false) t.

Definition blob_pull (b : Blob) : string * string := (repository b, digest b).

(** The placement a digest receives: decided by the destination lookup. *)
Definition placement (blobs_already_transferred : list Blob) (d : string)
  : BlobPlacement :=
  match get_blob_with_same_digest blobs_already_transferred d with
  | Some dest_blob => BlobLocationInRegistry (repository dest_blob)
  | None => BlobPathInZip ("blobs/" +:+ d)
  end.

(** The bytes stored for a blob: the chunks of its stream, joined. *)
Definition blob_bytes (dxf_base : DXFBase) (b : Blob) : string :=
  match pull_blob dxf_base (repository b) (digest b) with
  | inr (bytes_iterator, _) => String.concat "" (chunks bytes_iterator)
  | inl _ => ""
  end.

(** The blobs that get bundled: first occurrences of digests that are
    neither placed yet nor at the destination. *)
Definition bundled (blobs_already_transferred : list Blob) (seen : gset string)
    (l : list Blob) : list Blob :=
  filter (λ b, get_blob_with_same_digest blobs_already_transferred (digest b) = None)
    (fresh seen l).

(** The to-transfer blobs that end up bundled, in source terms: the
    deduplicated list without the digests found at the destination. *)
Definition blobs_to_bundle (blobs_to_pull blobs_already_transferred : list Blob)
  : list Blob :=
  filter (λ b, digest b ∉ digest <$> blobs_already_transferred)
    (uniquify_blobs blobs_to_pull).

(** The two ways [download_blob_to_zip] can go for a blob. *)
Definition pull_succeeds (dxf_base : DXFBase) (b : Blob) : Prop :=
  ∃ bytes_iterator total_size,
    pull_blob dxf_base (repository b) (digest b) = inr (bytes_iterator, total_size) ∧
    broken bytes_iterator = None.

Definition pull_fails (dxf_base : DXFBase) (b : Blob) (e : exn) : Prop :=
  pull_blob dxf_base (repository b) (digest b) = inl e ∨
  ∃ bytes_iterator total_size,
    pull_blob dxf_base (repository b) (digest b) = inr (bytes_iterator, total_size) ∧
    broken bytes_iterator = Some e.

(** The body lines 145-148 select from a manifest's content, when line
    149 can write it: the [linux/amd64] variant of an index, or a whole
    body that does not contain that text. *)
Definition single_manifest_of (c : pyval) : option string :=
  match c with
  | Str s => if str_contains "linux/amd64" s then None else Some s
  | Dict d => d !! "linux/amd64"
  end.

(** The archive entry lines 144-149 write for a manifest, when they can:
    the image must have a non-empty path in the descriptor and its
    content a body to select. *)
Definition manifest_entry (payload_descriptor : PayloadDescriptor)
    (manifest : Manifest) : option (string * string) :=
  match manifests_paths payload_descriptor !! docker_image_name manifest with
  | None => None
  | Some dest =>
      if decide (dest = "") then None
      else match single_manifest_of (content manifest) with
           | Some body => Some (dest, body)
           | None => None
           end
  end.

(** The indices carried by the progress texts printed, in order. *)
Definition progress_indices (t : list event) : list nat :=
  omap (λ e, match e with Stderr (Progress i _) => Some i | _ => None end) t.

(** ** A registry and blob lists to run the encoder on *)

Module Sample.

Definition layer : Blob := mkBlob "sha256:abc" "app".
Definition layer_elsewhere : Blob := mkBlob "sha256:abc" "tools".
Definition config : Blob := mkBlob "sha256:def" "app".
Definition base_at_destination : Blob := mkBlob "sha256:def" "base".
Definition base_mirror : Blob := mkBlob "sha256:def" "mirror".

(** A manifest body whose annotations name a platform:
    {"schemaVersion":2,"annotations":{"description":"built for linux/amd64"},"layers":[]}
    (the pieces are joined by the double quote character). *)
Definition annotated_body : string :=
  String.concat (String "034"%char "")
    ["{"; "schemaVersion"; ":2,"; "annotations"; ":{"; "description"; ":";
     "built for linux/amd64"; "},"; "layers"; ":[]}"].

(** Serves three images; a blob comes as its digest between two chunks. *)
Definition registry : DXFBase :=
  mkDXF
    (λ image,
       if decide (image = "app:1.0") then inr (Str "M-app", [layer; config])
       else if decide (image = "base:1.0") then inr (Str "M-base", [base_at_destination])
       else if decide (image = "annotated:1.0") then inr (Str annotated_body, [])
       else inl (RegistryError ("manifest unknown: " +:+ image)))
    (λ _ d, inr (mkStream ["<"; d; ">"] None, 0%N)).

(** The same registry, losing the connection on one blob. *)
Definition flaky_registry : DXFBase :=
  mkDXF (resolve registry)
    (λ r d,
       if decide (d = "sha256:def") then inl (RegistryError "connection reset")
       else pull_blob registry r d).

Definition manifest_path (image : string) : string := "manifests/" +:+ image.

Definition dump (payload_descriptor : PayloadDescriptor) : string :=
  String.concat "," (images payload_descriptor).

Definition encode : list string → list string → io unit :=
  create_zip_from_docker_images manifest_path true dump dump registry.

End Sample.

(** * Properties *)

(** ** The effect monad *)

Lemma outcome_bind {A B} (m : io A) (f : A → io B) :
  outcome (m ≫= f) =
  match outcome m with inl e => inl e | inr a => outcome (f a) end.
Proof. destruct m as [t [e|a]]; simpl; [done|]. by destruct (f a). Qed.

Lemma trace_bind {A B} (m : io A) (f : A → io B) :
  trace (m ≫= f) =
  trace m ++ match outcome m with inl _ => [] | inr a => trace (f a) end.
Proof.
  destruct m as [t [e|a]]; simpl; [by rewrite app_nil_r|]. by destruct (f a).
Qed.

Lemma trace_ret {A} (a : A) : trace (mret a : io A) = [].
Proof. done. Qed.

Lemma outcome_ret {A} (a : A) : outcome (mret a : io A) = inr a.
Proof. done. Qed.

Lemma outcome_emit {B} (e : event) (k : unit → io B) :
  outcome (emit e ≫= k) = outcome (k tt).
Proof. by rewrite outcome_bind. Qed.

Lemma trace_emit {B} (e : event) (k : unit → io B) :
  trace (emit e ≫= k) = e :: trace (k tt).
Proof. by rewrite trace_bind. Qed.

Lemma pulls_app t1 t2 : pulls (t1 ++ t2) = pulls t1 ++ pulls t2.
Proof. apply omap_app. Qed.

Lemma zip_entries_app t1 t2 : zip_entries (t1 ++ t2) = zip_entries t1 ++ zip_entries t2.
Proof. apply omap_app. Qed.

Lemma resolutions_app t1 t2 : resolutions (t1 ++ t2) = resolutions t1 ++ resolutions t2.
Proof. apply omap_app. Qed.

(** ** Deduplication *)

Lemma elem_of_digests d l : d ∈ digests l ↔ d ∈ digest <$> l.
Proof. unfold digests. apply elem_of_list_to_set. Qed.

Lemma digests_snoc l b : digests (l ++ [b]) = {[digest b]} ∪ digests l.
Proof. unfold digests. rewrite fmap_app, list_to_set_app_L. simpl. set_solver. Qed.

Lemma digests_cons l b : digests (b :: l) = {[digest b]} ∪ digests l.
Proof. done. Qed.

Lemma digests_app l1 l2 : digests (l1 ++ l2) = digests l1 ∪ digests l2.
Proof. unfold digests. by rewrite fmap_app, list_to_set_app_L. Qed.

Lemma uniquify_fold result l :
  fold_left uniquify_step l result = result ++ fresh (digests result) l.
Proof.
  revert result. induction l as [|b r IH]; intros result; simpl.
  - by rewrite app_nil_r.
  - rewrite IH. unfold uniquify_step.
    destruct (decide (digest b ∈ digest <$> result)) as [Hin|Hin];
      destruct (decide (digest b ∈ digests result)) as [Hin'|Hin'];
      rewrite elem_of_digests in Hin'; try done.
    by rewrite digests_snoc, <- app_assoc.
Qed.

Lemma uniquify_blobs_fresh l : uniquify_blobs l = fresh ∅ l.
Proof. unfold uniquify_blobs. by rewrite uniquify_fold. Qed.

Lemma fresh_sublist seen l : fresh seen l `sublist_of` l.
Proof.
  revert seen. induction l as [|b r IH]; intros seen; simpl; [done|].
  destruct (decide _); [by apply sublist_cons | by apply sublist_skip].
Qed.

Lemma elem_of_fresh_digests seen l d :
  d ∈ digests (fresh seen l) ↔ d ∈ digests l ∧ d ∉ seen.
Proof.
  revert seen. induction l as [|b r IH]; intros seen; simpl.
  - set_solver.
  - destruct (decide (digest b ∈ seen)).
    + rewrite IH, digests_cons. set_solver.
    + rewrite !digests_cons, elem_of_union, IH.
      destruct (decide (d = digest b)) as [->|]; set_solver.
Qed.

Lemma fresh_NoDup seen l : NoDup (digest <$> fresh seen l).
Proof.
  revert seen. induction l as [|b r IH]; intros seen; simpl; [constructor|].
  destruct (decide _); [done|]. rewrite fmap_cons. constructor; [|done].
  rewrite <- elem_of_digests, elem_of_fresh_digests. set_solver.
Qed.

Lemma fresh_seen_all seen l : digests l ⊆ seen → fresh seen l = [].
Proof.
  revert seen. induction l as [|b r IH]; intros seen Hsub; simpl; [done|].
  rewrite digests_cons in Hsub. rewrite decide_True by set_solver.
  apply IH. set_solver.
Qed.

Lemma fresh_app seen l1 l2 :
  fresh seen (l1 ++ l2) = fresh seen l1 ++ fresh (digests l1 ∪ seen) l2.
Proof.
  revert seen. induction l1 as [|b r IH]; intros seen; simpl.
  - f_equal. unfold digests. simpl. set_solver.
  - rewrite digests_cons. destruct (decide (digest b ∈ seen)).
    + rewrite IH. do 2 f_equal. set_solver.
    + rewrite IH. simpl. do 3 f_equal. set_solver.
Qed.

Lemma fresh_idemp seen l : fresh seen (fresh seen l) = fresh seen l.
Proof.
  revert seen. induction l as [|b r IH]; intros seen; simpl; [done|].
  destruct (decide (digest b ∈ seen)) as [Hin|Hin]; [done|].
  simpl. rewrite decide_False by done. f_equal. apply IH.
Qed.

(** The first blob of [l] bearing a digest survives, alone. *)
Lemma fresh_first seen pre b post :
  digest b ∉ digest <$> pre → digest b ∉ seen →
  filter (λ x, digest x = digest b) (fresh seen (pre ++ b :: post)) = [b].
Proof.
  intros Hpre Hseen. rewrite fresh_app. simpl.
  rewrite decide_False by (rewrite elem_of_union, elem_of_digests; tauto).
  rewrite filter_app, filter_cons_True by done.
  assert (Hnone : ∀ l, digest b ∉ digests l →
            filter (λ x, digest x = digest b) l = []).
  { induction l as [|x l IHl]; [done|]. rewrite digests_cons. intros Hx.
    rewrite filter_cons_False by set_solver. apply IHl. set_solver. }
  rewrite (Hnone (fresh seen pre)), (Hnone (fresh _ post)); [done| |].
  - rewrite elem_of_fresh_digests. set_solver.
  - rewrite elem_of_fresh_digests, elem_of_digests. tauto.
Qed.

(** ** Looking a digest up in a list of blobs *)

Lemma get_blob_None l d :
  get_blob_with_same_digest l d = None ↔ d ∉ digest <$> l.
Proof.
  induction l as [|b r IH]; simpl.
  - split; [intros _; apply not_elem_of_nil | done].
  - rewrite not_elem_of_cons. destruct (decide (digest b = d)) as [<-|Hne].
    + split; [done | tauto].
    + rewrite IH. naive_solver.
Qed.

Lemma get_blob_Some l d b :
  get_blob_with_same_digest l d = Some b ↔
  ∃ pre post, l = pre ++ b :: post ∧ digest b = d ∧ d ∉ digest <$> pre.
Proof.
  split.
  - induction l as [|x r IH]; simpl; [done|].
    destruct (decide (digest x = d)) as [Hx|Hx].
    + intros [= ->]. exists [], r. split_and!; [done..|apply not_elem_of_nil].
    + intros (pre & post & -> & Hb & Hpre)%IH.
      exists (x :: pre), post. split_and!; [done..|].
      rewrite fmap_cons, not_elem_of_cons. auto.
  - intros (pre & post & -> & Hb & Hpre).
    induction pre as [|x pre IH]; simpl.
    + by rewrite decide_True.
    + rewrite fmap_cons, not_elem_of_cons in Hpre. destruct Hpre as [Hx Hpre].
      rewrite decide_False by done. by apply IH.
Qed.

Lemma get_blob_fresh seen l d :
  get_blob_with_same_digest (fresh seen l) d =
  if decide (d ∈ seen) then None else get_blob_with_same_digest l d.
Proof.
  revert seen. induction l as [|b r IH]; intros seen; simpl.
  - by destruct (decide _).
  - destruct (decide (digest b ∈ seen)) as [Hb|Hb]; simpl.
    + rewrite IH. destruct (decide (d ∈ seen)); [done|].
      rewrite decide_False; [done|]. by intros <-.
    + destruct (decide (digest b = d)) as [<-|Hne].
      * by rewrite decide_False.
      * rewrite IH. destruct (decide (d ∈ seen)) as [Hd|Hd].
        -- rewrite decide_True; [done|]. set_solver.
        -- rewrite decide_False; [done|]. set_solver.
Qed.

Lemma get_blob_uniquify l d :
  get_blob_with_same_digest (uniquify_blobs l) d = get_blob_with_same_digest l d.
Proof. rewrite uniquify_blobs_fresh, get_blob_fresh. by rewrite decide_False. Qed.

(** ** One blob: [download_blob_to_zip] and a turn of the loop *)

Lemma effects_app t1 t2 : effects (t1 ++ t2) = effects t1 ++ effects t2.
Proof. apply filter_app. Qed.

Lemma pulls_effects t : pulls (effects t) = pulls t.
Proof.
  induction t as [|e t IH]; [done|].
  destruct e; unfold effects in *; simpl;
    rewrite ?filter_cons_True, ?filter_cons_False by done; simpl; by rewrite ?IH.
Qed.

Lemma zip_entries_effects t : zip_entries (effects t) = zip_entries t.
Proof.
  induction t as [|e t IH]; [done|].
  destruct e; unfold effects in *; simpl;
    rewrite ?filter_cons_True, ?filter_cons_False by done; simpl; by rewrite ?IH.
Qed.

Section Loop.

Variable dxf_base : DXFBase.

Lemma download_outcome b :
  outcome (download_blob_to_zip dxf_base b) =
  match pull_blob dxf_base (repository b) (digest b) with
  | inl e => inl e
  | inr (s, _) =>
      match broken s with
      | Some e => inl e
      | None => inr ("blobs/" +:+ digest b)
      end
  end.
Proof.
  unfold download_blob_to_zip.
  destruct (pull_blob _ _ _) as [e|[s n]]; [done|].
  by destruct (broken s).
Qed.

Lemma download_trace b :
  trace (download_blob_to_zip dxf_base b) =
  PullBlob (repository b) (digest b) ::
  match pull_blob dxf_base (repository b) (digest b) with
  | inl _ => []
  | inr _ => [ZipEntry ("blobs/" +:+ digest b) (blob_bytes dxf_base b)]
  end.
Proof.
  unfold download_blob_to_zip, blob_bytes.
  destruct (pull_blob _ _ _) as [e|[s n]]; [done|].
  by destruct (broken s).
Qed.

Lemma download_ok b p :
  outcome (download_blob_to_zip dxf_base b) = inr p →
  p = "blobs/" +:+ digest b ∧
  trace (download_blob_to_zip dxf_base b) =
    [PullBlob (repository b) (digest b);
     ZipEntry ("blobs/" +:+ digest b) (blob_bytes dxf_base b)].
Proof.
  rewrite download_outcome, download_trace.
  destruct (pull_blob _ _ _) as [e|[s n]]; [done|].
  destruct (broken s); [done|]. by intros [= <-].
Qed.

Section Turn.

Variables (blobs_to_pull blobs_already_transferred : list Blob).
Variables (blob_index : nat) (blob : Blob).
Variable blobs_paths : gmap string BlobPlacement.

Let turn :=
  add_blob_to_zip dxf_base blobs_to_pull blobs_already_transferred
    blob_index blob blobs_paths.

Lemma add_blob_outcome :
  outcome turn =
  match blobs_paths !! digest blob with
  | Some _ => inr blobs_paths
  | None =>
      match get_blob_with_same_digest blobs_already_transferred (digest blob) with
      | Some dest_blob =>
          inr (<[digest blob := BlobLocationInRegistry (repository dest_blob)]>
                 blobs_paths)
      | None =>
          match outcome (download_blob_to_zip dxf_base blob) with
          | inl e => inl e
          | inr p => inr (<[digest blob := BlobPathInZip p]> blobs_paths)
          end
      end
  end.
Proof.
  unfold turn, add_blob_to_zip, print. rewrite outcome_emit.
  destruct (blobs_paths !! digest blob); [by rewrite outcome_emit|].
  destruct (get_blob_with_same_digest _ _); [by rewrite outcome_emit|].
  rewrite outcome_emit, outcome_bind.
  by destruct (outcome (download_blob_to_zip dxf_base blob)).
Qed.

Lemma add_blob_effects :
  effects (trace turn) =
  match blobs_paths !! digest blob with
  | Some _ => []
  | None =>
      match get_blob_with_same_digest blobs_already_transferred (digest blob) with
      | Some _ => []
      | None => trace (download_blob_to_zip dxf_base blob)
      end
  end.
Proof.
  unfold turn, add_blob_to_zip, print. rewrite trace_emit.
  destruct (blobs_paths !! digest blob); [by rewrite trace_emit|].
  destruct (get_blob_with_same_digest _ _); [by rewrite trace_emit|].
  rewrite trace_emit, trace_bind, download_trace.
  destruct (outcome (download_blob_to_zip dxf_base blob));
    rewrite ?trace_ret, app_nil_r; by destruct (pull_blob _ _ _).
Qed.

End Turn.

End Loop.

(** ** The loop of [add_blobs_to_zip] *)

Section LoopFacts.

Variable dxf_base : DXFBase.
Variables (blobs_to_pull blobs_already_transferred : list Blob).

Abbreviation loop := (add_blobs_loop dxf_base blobs_to_pull blobs_already_transferred).
Abbreviation turn := (add_blob_to_zip dxf_base blobs_to_pull blobs_already_transferred).

Lemma loop_cons_outcome i b r m :
  outcome (loop i (b :: r) m) =
  match outcome (turn i b m) with
  | inl e => inl e
  | inr m1 => outcome (loop (S i) r m1)
  end.
Proof. simpl. apply outcome_bind. Qed.

Lemma loop_cons_trace i b r m :
  trace (loop i (b :: r) m) =
  trace (turn i b m) ++
  match outcome (turn i b m) with
  | inl _ => []
  | inr m1 => trace (loop (S i) r m1)
  end.
Proof. simpl. apply trace_bind. Qed.

(** A successful turn either leaves the mapping alone (digest placed
    already) or inserts the placement of the digest. *)
Lemma turn_ok i b m m1 :
  outcome (turn i b m) = inr m1 →
  (is_Some (m !! digest b) ∧ m1 = m) ∨
  (m !! digest b = None ∧
   m1 = <[digest b := placement blobs_already_transferred (digest b)]> m).
Proof.
  rewrite add_blob_outcome. unfold placement.
  destruct (m !! digest b) eqn:Hm; [intros [= <-]; left; eauto|].
  destruct (get_blob_with_same_digest _ _); [intros [= <-]; by right|].
  destruct (outcome (download_blob_to_zip _ _)) eqn:Hd; [done|].
  apply download_ok in Hd as [-> _]. intros [= <-]. by right.
Qed.

(** The mapping returned: what was there, plus the placement of every
    digest of the list. *)
Lemma loop_lookup i l m m' d :
  outcome (loop i l m) = inr m' →
  m' !! d =
  match m !! d with
  | Some p => Some p
  | None =>
      if decide (d ∈ digest <$> l)
      then Some (placement blobs_already_transferred d) else None
  end.
Proof.
  revert i m. induction l as [|b r IH]; intros i m.
  - intros [= <-]. destruct (m !! d); [done|].
    rewrite decide_False; [done|apply not_elem_of_nil].
  - rewrite loop_cons_outcome.
    destruct (outcome (turn i b m)) as [e|m1] eqn:Hturn; [done|].
    intros Hloop. rewrite (IH _ _ Hloop).
    apply turn_ok in Hturn as [[[p Hp] ->]|[Hnone ->]].
    + destruct (m !! d) eqn:Hd; [done|].
      assert (d ≠ digest b) by congruence.
      destruct (decide (d ∈ digest <$> r)), (decide (d ∈ digest <$> b :: r));
        try done; set_solver.
    + destruct (decide (d = digest b)) as [->|Hne].
      * rewrite lookup_insert_eq, Hnone, decide_True; [done|set_solver].
      * rewrite lookup_insert_ne by done. destruct (m !! d); [done|].
        destruct (decide (d ∈ digest <$> r)), (decide (d ∈ digest <$> b :: r));
          try done; set_solver.
Qed.

Lemma loop_dom i l m m' :
  outcome (loop i l m) = inr m' → dom m' = dom m ∪ digests l.
Proof.
  intros Hloop. apply set_eq. intros d.
  rewrite elem_of_union, !elem_of_dom, elem_of_digests, (loop_lookup _ _ _ _ d Hloop).
  unfold is_Some. destruct (m !! d); [naive_solver|].
  destruct (decide _); naive_solver.
Qed.

(** Pulls issued by a turn. *)
Lemma turn_pulls i b m :
  pulls (trace (turn i b m)) =
  blob_pull <$> bundled blobs_already_transferred (dom m) [b].
Proof.
  rewrite <- pulls_effects, add_blob_effects. unfold bundled. simpl.
  destruct (m !! digest b) eqn:Hm.
  - rewrite decide_True; [done|]. apply elem_of_dom. eauto.
  - rewrite decide_False by (by rewrite not_elem_of_dom).
    destruct (get_blob_with_same_digest _ _) eqn:Hget.
    + by rewrite filter_cons_False by (by rewrite Hget).
    + rewrite filter_cons_True by done. rewrite download_trace.
      by destruct (pull_blob _ _ _).
Qed.

Lemma bundled_cons seen b r :
  bundled blobs_already_transferred seen (b :: r) =
  bundled blobs_already_transferred seen [b] ++
  bundled blobs_already_transferred ({[digest b]} ∪ seen) r.
Proof.
  unfold bundled. change (b :: r) with ([b] ++ r).
  rewrite fresh_app, filter_app. do 3 f_equal.
  unfold digests. simpl. set_solver.
Qed.

Lemma turn_dom i b m m1 :
  outcome (turn i b m) = inr m1 → dom m1 = {[digest b]} ∪ dom m.
Proof.
  intros [[Hs ->]|[_ ->]]%turn_ok.
  - apply elem_of_dom in Hs. set_solver.
  - by rewrite dom_insert_L.
Qed.

(** Whatever the outcome, the pulls issued are an initial segment of
    the bundled blobs, in order; all of them when the loop returns. *)
Lemma loop_pulls_prefix i l m :
  pulls (trace (loop i l m)) `prefix_of`
  blob_pull <$> bundled blobs_already_transferred (dom m) l.
Proof.
  revert i m. induction l as [|b r IH]; intros i m; [done|].
  rewrite loop_cons_trace, pulls_app, bundled_cons, fmap_app, turn_pulls.
  apply prefix_app.
  destruct (outcome (turn i b m)) as [e|m1] eqn:Hturn; [apply prefix_nil|].
  rewrite <- (turn_dom _ _ _ _ Hturn). apply IH.
Qed.

Lemma loop_pulls i l m m' :
  outcome (loop i l m) = inr m' →
  pulls (trace (loop i l m)) =
  blob_pull <$> bundled blobs_already_transferred (dom m) l.
Proof.
  revert i m. induction l as [|b r IH]; intros i m; [done|].
  rewrite loop_cons_outcome, loop_cons_trace, pulls_app, bundled_cons,
    fmap_app, turn_pulls.
  destruct (outcome (turn i b m)) as [e|m1] eqn:Hturn; [done|].
  intros Hloop. rewrite (IH _ _ Hloop). by rewrite (turn_dom _ _ _ _ Hturn).
Qed.

(** Archive entries written when the loop returns. *)
Lemma loop_zip_entries i l m m' :
  outcome (loop i l m) = inr m' →
  zip_entries (trace (loop i l m)) =
  (λ b, ("blobs/" +:+ digest b, blob_bytes dxf_base b)) <$>
    bundled blobs_already_transferred (dom m) l.
Proof.
  revert i m. induction l as [|b r IH]; intros i m; [done|].
  rewrite loop_cons_outcome, loop_cons_trace, zip_entries_app, bundled_cons,
    fmap_app.
  destruct (outcome (turn i b m)) as [e|m1] eqn:Hturn; [done|].
  intros Hloop. rewrite (IH _ _ Hloop), (turn_dom _ _ _ _ Hturn). f_equal.
  rewrite <- zip_entries_effects, add_blob_effects.
  rewrite add_blob_outcome in Hturn. unfold bundled. simpl.
  destruct (m !! digest b) eqn:Hm.
  - rewrite decide_True; [done|]. apply elem_of_dom. eauto.
  - rewrite decide_False by (by rewrite not_elem_of_dom).
    destruct (get_blob_with_same_digest _ _) eqn:Hget.
    + by rewrite filter_cons_False by (by rewrite Hget).
    + rewrite filter_cons_True by done.
      destruct (outcome (download_blob_to_zip _ _)) eqn:Hd; [done|].
      apply download_ok in Hd as [_ ->]. done.
Qed.

End LoopFacts.

(** Placed digests are skipped, so the loop over a list and the loop
    over its first occurrences return the same thing and touch the
    registry and the archive in the same way.  Neither the progress
    counter nor the choice among destination lists with equal lookups
    matters. *)
Lemma loop_fresh dxf_base all all' T T' l :
  (∀ d, get_blob_with_same_digest T d = get_blob_with_same_digest T' d) →
  ∀ i i' m,
    outcome (add_blobs_loop dxf_base all T i l m) =
    outcome (add_blobs_loop dxf_base all' T' i' (fresh (dom m) l) m) ∧
    effects (trace (add_blobs_loop dxf_base all T i l m)) =
    effects (trace (add_blobs_loop dxf_base all' T' i' (fresh (dom m) l) m)).
Proof.
  intros HT. induction l as [|b r IH]; intros i i' m; [done|].
  cbn [fresh]. rewrite loop_cons_outcome, loop_cons_trace, effects_app.
  rewrite add_blob_outcome, add_blob_effects.
  destruct (decide (digest b ∈ dom m)) as [Hin|Hin].
  - apply elem_of_dom in Hin as [p Hp]. rewrite Hp. apply IH.
  - apply not_elem_of_dom in Hin.
    rewrite loop_cons_outcome, loop_cons_trace, effects_app.
    rewrite add_blob_outcome, add_blob_effects, Hin, <- HT.
    destruct (get_blob_with_same_digest T (digest b)) as [dest|].
    + rewrite <- (dom_insert_L m (digest b)
                   (BlobLocationInRegistry (repository dest))). apply IH.
    + destruct (outcome (download_blob_to_zip dxf_base b)) as [e|p]; [done|].
      rewrite <- (dom_insert_L m (digest b) (BlobPathInZip p)).
      destruct (IH (S i) (S i') (<[digest b:=BlobPathInZip p]> m)) as [-> ->].
      done.
Qed.

(** Every bundled blob was downloaded without error when the loop returns. *)
Lemma loop_downloads_ok dxf_base all T i l m m' :
  outcome (add_blobs_loop dxf_base all T i l m) = inr m' →
  Forall (λ b, outcome (download_blob_to_zip dxf_base b) = inr ("blobs/" +:+ digest b))
    (bundled T (dom m) l).
Proof.
  revert i m. induction l as [|b r IH]; intros i m; [by constructor|].
  rewrite loop_cons_outcome, bundled_cons.
  destruct (outcome (add_blob_to_zip _ _ _ _ _ _)) as [e|m1] eqn:Hturn; [done|].
  intros Hloop. apply Forall_app. split.
  - unfold bundled. simpl. rewrite add_blob_outcome in Hturn.
    destruct (decide (digest b ∈ dom m)) as [Hin|Hin]; [constructor|].
    apply not_elem_of_dom in Hin. rewrite Hin in Hturn.
    destruct (get_blob_with_same_digest T (digest b)) eqn:Hget.
    + rewrite filter_cons_False by (by rewrite Hget). constructor.
    + rewrite filter_cons_True by done. repeat constructor.
      destruct (outcome (download_blob_to_zip dxf_base b)) eqn:Hd; [done|].
      by apply download_ok in Hd as [-> _].
  - rewrite <- (turn_dom _ _ _ _ _ _ _ Hturn). by eapply IH.
Qed.

Lemma filter_fmap_comm {A B} (f : A → B) (P : B → Prop)
    `{!∀ y, Decision (P y)} (l : list A) :
  filter P (f <$> l) = f <$> filter (λ x, P (f x)) l.
Proof.
  induction l as [|x l IH]; [done|]. rewrite fmap_cons.
  destruct (decide (P (f x))).
  - rewrite !filter_cons_True by done. by rewrite fmap_cons, IH.
  - by rewrite !filter_cons_False.
Qed.

Lemma blob_path_inj d1 d2 : "blobs/" +:+ d1 = "blobs/" +:+ d2 ↔ d1 = d2.
Proof. split; [intros [= Heq]; exact Heq | by intros ->]. Qed.

Lemma bundled_first T seen pre b post :
  digest b ∉ digest <$> pre → digest b ∉ seen →
  get_blob_with_same_digest T (digest b) = None →
  filter (λ x, digest x = digest b) (bundled T seen (pre ++ b :: post)) = [b].
Proof.
  intros Hpre Hseen Hget. unfold bundled.
  rewrite list_filter_filter.
  rewrite (list_filter_iff _
             (λ x, get_blob_with_same_digest T (digest x) = None ∧
                   digest x = digest b)) by tauto.
  rewrite <- list_filter_filter, fresh_first by done.
  by rewrite filter_cons_True.
Qed.

(** ** Claims about [uniquify_blobs] and [get_blob_with_same_digest] *)

(** C4: [uniquify_blobs] keeps the blobs in input order and drops later
    duplicates: the output is a subsequence of the input, holds no digest
    twice and exactly the digests of the input, the one blob it keeps for a
    digest is the first input blob bearing it, and deduplicating again
    changes nothing. *)
Theorem uniquify_blobs_first_occurrences (blobs : list Blob) :
  (uniquify_blobs blobs `sublist_of` blobs) ∧
  NoDup (digest <$> uniquify_blobs blobs) ∧
  (∀ d, d ∈ digest <$> uniquify_blobs blobs ↔ d ∈ digest <$> blobs) ∧
  (∀ pre b post,
     blobs = pre ++ b :: post → digest b ∉ digest <$> pre →
     filter (λ x, digest x = digest b) (uniquify_blobs blobs) = [b]) ∧
  uniquify_blobs (uniquify_blobs blobs) = uniquify_blobs blobs.
Proof.
  rewrite !uniquify_blobs_fresh. split_and!.
  - apply fresh_sublist.
  - apply fresh_NoDup.
  - intros d. rewrite <- !elem_of_digests, elem_of_fresh_digests. set_solver.
  - intros pre b post -> Hpre. apply fresh_first; [done|set_solver].
  - apply fresh_idemp.
Qed.

Lemma uniquify_blobs_first_occurrences_witness :
  [Sample.layer; Sample.config; Sample.layer_elsewhere]
  = [] ++ Sample.layer :: [Sample.config; Sample.layer_elsewhere] ∧
  (digest Sample.layer ∉ digest <$> []) ∧
  filter (λ x, digest x = digest Sample.layer)
    (uniquify_blobs [Sample.layer; Sample.config; Sample.layer_elsewhere])
  = [Sample.layer].
Proof.
  split; [reflexivity|]. split; [apply not_elem_of_nil|].
  destruct (uniquify_blobs_first_occurrences
              [Sample.layer; Sample.config; Sample.layer_elsewhere])
    as (_ & _ & _ & Hfirst & _).
  apply (Hfirst [] Sample.layer [Sample.config; Sample.layer_elsewhere]);
    [reflexivity|apply not_elem_of_nil].
Defined.

(** C10: [get_blob_with_same_digest] returns the first blob of the list
    bearing the digest and [None] exactly when no blob bears it; so the
    repository of a [BlobLocationInRegistry] placement is that of the
    earliest blob with the digest in the already-transferred list. *)
Theorem get_blob_with_same_digest_first_match :
  (∀ l d b,
     get_blob_with_same_digest l d = Some b ↔
     ∃ pre post, l = pre ++ b :: post ∧ digest b = d ∧ d ∉ digest <$> pre) ∧
  (∀ l d, get_blob_with_same_digest l d = None ↔ d ∉ digest <$> l) ∧
  (∀ dxf_base blobs_to_pull pre dest post d m,
     d ∈ digest <$> blobs_to_pull →
     digest dest = d → d ∉ digest <$> pre →
     outcome (add_blobs_to_zip dxf_base blobs_to_pull (pre ++ dest :: post)) = inr m →
     m !! d = Some (BlobLocationInRegistry (repository dest))).
Proof.
  split_and!.
  - apply get_blob_Some.
  - apply get_blob_None.
  - intros dxf_base B pre dest post d m HB Hd Hpre Hrun.
    unfold add_blobs_to_zip in Hrun.
    rewrite (loop_lookup _ _ _ _ _ _ _ d Hrun), lookup_empty, decide_True by done.
    unfold placement.
    by rewrite (proj2 (get_blob_Some _ d dest)) by eauto.
Qed.

Lemma get_blob_with_same_digest_first_match_witness :
  ("sha256:def" ∈ digest <$> [Sample.config]) ∧
  digest Sample.base_at_destination = "sha256:def" ∧
  ("sha256:def" ∉ digest <$> [Sample.layer]) ∧
  outcome (add_blobs_to_zip Sample.registry [Sample.config]
             ([Sample.layer] ++ Sample.base_at_destination :: [Sample.base_mirror]))
  = inr {[ "sha256:def" := BlobLocationInRegistry "base" ]} ∧
  ({[ "sha256:def" := BlobLocationInRegistry "base" ]} : gmap string BlobPlacement)
    !! "sha256:def" = Some (BlobLocationInRegistry (repository Sample.base_at_destination)).
Proof.
  assert (H1 : "sha256:def" ∈ digest <$> [Sample.config]) by (vm_compute; left).
  assert (H2 : "sha256:def" ∉ digest <$> [Sample.layer]) by compute_done.
  split_and!; [done|reflexivity|done|vm_compute; reflexivity|].
  apply (proj2 (proj2 get_blob_with_same_digest_first_match)
           Sample.registry [Sample.config] [Sample.layer]
           Sample.base_at_destination [Sample.base_mirror] "sha256:def");
    [done|reflexivity|done|vm_compute; reflexivity].
Defined.

(** ** Claims about [add_blobs_to_zip] *)

(** Dropping from the list a blob whose digest occurred before it does not
    change the first occurrences. *)
Lemma fresh_drop_later seen pre b post :
  digest b ∈ digest <$> pre →
  fresh seen (pre ++ b :: post) = fresh seen (pre ++ post).
Proof.
  intros Hpre. rewrite !fresh_app. f_equal. simpl.
  rewrite decide_True; [done|]. rewrite elem_of_union, elem_of_digests. auto.
Qed.

(** C1: the mapping returned by [add_blobs_to_zip] has an entry for exactly
    the digests of the to-transfer list, one per distinct digest; the entry
    of a digest is the placement decided at its first occurrence, and a
    later occurrence adds nothing: without it the mapping is the same. *)
Theorem add_blobs_to_zip_one_entry_per_digest
    (dxf_base : DXFBase) (blobs_to_pull blobs_already_transferred : list Blob)
    (m : gmap string BlobPlacement) :
  outcome (add_blobs_to_zip dxf_base blobs_to_pull blobs_already_transferred) = inr m →
  (∀ d, is_Some (m !! d) ↔ d ∈ digest <$> blobs_to_pull) ∧
  size m = length (uniquify_blobs blobs_to_pull) ∧
  (∀ pre b post,
     blobs_to_pull = pre ++ b :: post → digest b ∉ digest <$> pre →
     m !! digest b = Some (placement blobs_already_transferred (digest b))) ∧
  (∀ pre b post,
     blobs_to_pull = pre ++ b :: post → digest b ∈ digest <$> pre →
     outcome (add_blobs_to_zip dxf_base (pre ++ post) blobs_already_transferred)
     = inr m).
Proof.
  intros Hrun. unfold add_blobs_to_zip in Hrun. split_and!.
  - intros d. rewrite (loop_lookup _ _ _ _ _ _ _ d Hrun), lookup_empty.
    unfold is_Some. destruct (decide _); naive_solver.
  - rewrite <- size_dom, (loop_dom _ _ _ _ _ _ _ Hrun), dom_empty_L, union_empty_l_L.
    rewrite uniquify_blobs_fresh.
    rewrite <- (length_fmap digest (fresh ∅ blobs_to_pull)).
    rewrite <- (size_list_to_set (C := gset string)) by apply fresh_NoDup.
    f_equal. apply set_eq. intros d.
    change (d ∈ digests blobs_to_pull ↔ d ∈ digests (fresh ∅ blobs_to_pull)).
    rewrite elem_of_fresh_digests. set_solver.
  - intros pre b post -> _.
    rewrite (loop_lookup _ _ _ _ _ _ _ (digest b) Hrun), lookup_empty.
    rewrite decide_True; [done|]. set_solver.
  - intros pre b post -> Hpre. rewrite <- Hrun. unfold add_blobs_to_zip.
    destruct (loop_fresh dxf_base (pre ++ post) [] blobs_already_transferred
                blobs_already_transferred (pre ++ post) (λ _, eq_refl) 0 0 ∅)
      as [-> _].
    destruct (loop_fresh dxf_base (pre ++ b :: post) [] blobs_already_transferred
                blobs_already_transferred (pre ++ b :: post) (λ _, eq_refl) 0 0 ∅)
      as [-> _].
    by rewrite fresh_drop_later.
Qed.

Lemma add_blobs_to_zip_one_entry_per_digest_witness :
  outcome (add_blobs_to_zip Sample.registry
             [Sample.layer; Sample.config; Sample.layer_elsewhere]
             [Sample.base_at_destination])
  = inr {[ "sha256:abc" := BlobPathInZip "blobs/sha256:abc";
           "sha256:def" := BlobLocationInRegistry "base" ]} ∧
  size ({[ "sha256:abc" := BlobPathInZip "blobs/sha256:abc";
           "sha256:def" := BlobLocationInRegistry "base" ]}
        : gmap string BlobPlacement)
  = length (uniquify_blobs [Sample.layer; Sample.config; Sample.layer_elsewhere]).
Proof.
  split; [vm_compute; reflexivity|].
  apply (add_blobs_to_zip_one_entry_per_digest Sample.registry
           [Sample.layer; Sample.config; Sample.layer_elsewhere]
           [Sample.base_at_destination]).
  vm_compute; reflexivity.
Defined.

(** C2: a to-transfer blob whose digest is found in the already-transferred
    list is never pulled, whatever else happens.  The turn of the loop that
    reaches it with its digest not classified yet cannot fail: it prints
    its two messages, touches neither registry nor archive, and records
    the placement in the registry under the repository of the blob found
    (the first with that digest).  When the function returns, the mapping
    holds that placement. *)
Theorem add_blobs_to_zip_skips_transferred
    (dxf_base : DXFBase) (blobs_to_pull blobs_already_transferred : list Blob)
    (blob dest_blob : Blob) :
  blob ∈ blobs_to_pull →
  get_blob_with_same_digest blobs_already_transferred (digest blob) = Some dest_blob →
  (∀ r, (r, digest blob) ∉
        pulls (trace (add_blobs_to_zip dxf_base blobs_to_pull blobs_already_transferred))) ∧
  (∀ blob_index blobs_paths,
     blobs_paths !! digest blob = None →
     add_blob_to_zip dxf_base blobs_to_pull blobs_already_transferred
       blob_index blob blobs_paths
     = ([Stderr (Progress blob_index blobs_to_pull);
         Stderr (SkippingInDestination blob (repository dest_blob))],
        inr (<[digest blob := BlobLocationInRegistry (repository dest_blob)]>
               blobs_paths))) ∧
  (∀ m, outcome (add_blobs_to_zip dxf_base blobs_to_pull blobs_already_transferred)
        = inr m →
        m !! digest blob = Some (BlobLocationInRegistry (repository dest_blob))).
Proof.
  intros Hin Hget. unfold add_blobs_to_zip. split_and!.
  - intros r Hr.
    destruct (loop_pulls_prefix dxf_base blobs_to_pull blobs_already_transferred
                0 blobs_to_pull ∅) as [k Hk].
    assert (Hr' : (r, digest blob) ∈
              blob_pull <$> bundled blobs_already_transferred (dom (∅ : gmap string BlobPlacement)) blobs_to_pull)
      by (rewrite Hk; set_solver).
    apply list_elem_of_fmap in Hr' as (x & [= -> Hx] & Hbundled).
    apply list_elem_of_filter in Hbundled as [Hnone _]. congruence.
  - intros blob_index blobs_paths Hfresh. unfold add_blob_to_zip.
    by rewrite Hfresh, Hget.
  - intros m Hrun.
    rewrite (loop_lookup _ _ _ _ _ _ _ (digest blob) Hrun), lookup_empty.
    rewrite decide_True by (by apply list_elem_of_fmap_2).
    unfold placement. by rewrite Hget.
Qed.

Lemma add_blobs_to_zip_skips_transferred_witness :
  Sample.config ∈ [Sample.layer; Sample.config] ∧
  get_blob_with_same_digest [Sample.base_at_destination; Sample.base_mirror]
    (digest Sample.config) = Some Sample.base_at_destination ∧
  add_blobs_to_zip Sample.registry [Sample.layer; Sample.config]
    [Sample.base_at_destination; Sample.base_mirror]
  = ([Stderr (Progress 0 [Sample.layer; Sample.config]);
      Stderr (PullingBlob Sample.layer);
      PullBlob "app" "sha256:abc";
      ZipEntry "blobs/sha256:abc" "<sha256:abc>";
      Stderr (Progress 1 [Sample.layer; Sample.config]);
      Stderr (SkippingInDestination Sample.config "base")],
     inr {[ "sha256:abc" := BlobPathInZip "blobs/sha256:abc";
            "sha256:def" := BlobLocationInRegistry "base" ]}) ∧
  ({[ "sha256:abc" := BlobPathInZip "blobs/sha256:abc";
      "sha256:def" := BlobLocationInRegistry "base" ]}
   : gmap string BlobPlacement) !! digest Sample.config
  = Some (BlobLocationInRegistry (repository Sample.base_at_destination)) ∧
  (∀ r, (r, digest Sample.config) ∉
        pulls (trace (add_blobs_to_zip Sample.registry [Sample.layer; Sample.config]
                        [Sample.base_at_destination; Sample.base_mirror]))).
Proof.
  assert (H1 : Sample.config ∈ [Sample.layer; Sample.config]) by compute_done.
  assert (Hrun : add_blobs_to_zip Sample.registry [Sample.layer; Sample.config]
                   [Sample.base_at_destination; Sample.base_mirror]
                 = ([Stderr (Progress 0 [Sample.layer; Sample.config]);
                     Stderr (PullingBlob Sample.layer);
                     PullBlob "app" "sha256:abc";
                     ZipEntry "blobs/sha256:abc" "<sha256:abc>";
                     Stderr (Progress 1 [Sample.layer; Sample.config]);
                     Stderr (SkippingInDestination Sample.config "base")],
                    inr {[ "sha256:abc" := BlobPathInZip "blobs/sha256:abc";
                           "sha256:def" := BlobLocationInRegistry "base" ]}))
    by (vm_compute; reflexivity).
  destruct (add_blobs_to_zip_skips_transferred Sample.registry
              [Sample.layer; Sample.config]
              [Sample.base_at_destination; Sample.base_mirror]
              Sample.config Sample.base_at_destination H1 eq_refl)
    as (Hnopull & _ & Hplaced).
  split_and!; [done|reflexivity|exact Hrun| |exact Hnopull].
  apply Hplaced. by rewrite Hrun.
Defined.

(** C5: the first to-transfer blob bearing a digest that is not in the
    already-transferred list is pulled at most once whatever happens, and
    when the function returns it was pulled exactly once (from its own
    repository), stored in the archive at ["blobs/<digest>"] with the
    bytes of its stream, and placed at that path in the mapping. *)
Theorem add_blobs_to_zip_bundles_new_digest
    (dxf_base : DXFBase) (pre : list Blob) (blob : Blob) (post : list Blob)
    (blobs_already_transferred : list Blob) :
  digest blob ∉ digest <$> pre →
  digest blob ∉ digest <$> blobs_already_transferred →
  (length (filter (λ p, p.2 = digest blob)
             (pulls (trace (add_blobs_to_zip dxf_base (pre ++ blob :: post)
                              blobs_already_transferred)))) ≤ 1)%nat ∧
  ∀ m,
    outcome (add_blobs_to_zip dxf_base (pre ++ blob :: post) blobs_already_transferred)
    = inr m →
    ∃ bytes_iterator total_size,
      pull_blob dxf_base (repository blob) (digest blob)
      = inr (bytes_iterator, total_size) ∧
      broken bytes_iterator = None ∧
      filter (λ p, p.2 = digest blob)
        (pulls (trace (add_blobs_to_zip dxf_base (pre ++ blob :: post)
                         blobs_already_transferred)))
      = [(repository blob, digest blob)] ∧
      filter (λ e, e.1 = "blobs/" +:+ digest blob)
        (zip_entries (trace (add_blobs_to_zip dxf_base (pre ++ blob :: post)
                               blobs_already_transferred)))
      = [("blobs/" +:+ digest blob, String.concat "" (chunks bytes_iterator))] ∧
      m !! digest blob = Some (BlobPathInZip ("blobs/" +:+ digest blob)).
Proof.
  intros Hpre Hdest. apply get_blob_None in Hdest.
  unfold add_blobs_to_zip in *.
  assert (Hfirst := bundled_first blobs_already_transferred ∅ pre blob post
                      Hpre (not_elem_of_empty _) Hdest).
  split.
  { destruct (loop_pulls_prefix dxf_base (pre ++ blob :: post)
                blobs_already_transferred 0 (pre ++ blob :: post) ∅) as [k Hk].
    apply (f_equal (filter (λ p, p.2 = digest blob))) in Hk.
    rewrite dom_empty_L, (filter_fmap_comm blob_pull (λ p, p.2 = digest blob)) in Hk.
    simpl in Hk. rewrite Hfirst, filter_app in Hk.
    apply (f_equal length) in Hk. rewrite length_app in Hk. simpl in Hk. lia. }
  intros m Hrun.
  (* the blob is among the bundled ones, so its download went through *)
  assert (Hdown : outcome (download_blob_to_zip dxf_base blob)
                  = inr ("blobs/" +:+ digest blob)).
  { pose proof (loop_downloads_ok _ _ _ _ _ _ _ Hrun) as Hall.
    rewrite dom_empty_L in Hall. rewrite Forall_forall in Hall. apply Hall.
    eapply (list_elem_of_filter (λ x, digest x = digest blob)).
    rewrite Hfirst. set_solver. }
  rewrite download_outcome in Hdown.
  destruct (pull_blob dxf_base (repository blob) (digest blob))
    as [e|[bytes_iterator total_size]] eqn:Hpull; [done|].
  destruct (broken bytes_iterator) eqn:Hbroken; [done|].
  exists bytes_iterator, total_size. split_and!; [done..| | |].
  - rewrite (loop_pulls _ _ _ _ _ _ _ Hrun), dom_empty_L.
    rewrite (filter_fmap_comm blob_pull (λ p, p.2 = digest blob)). simpl.
    by rewrite Hfirst.
  - rewrite (loop_zip_entries _ _ _ _ _ _ _ Hrun), dom_empty_L.
    rewrite (filter_fmap_comm _ (λ e, e.1 = "blobs/" +:+ digest blob)). simpl.
    rewrite (list_filter_iff _ (λ x, digest x = digest blob))
      by (intros x; apply blob_path_inj).
    rewrite Hfirst. simpl. unfold blob_bytes. by rewrite Hpull.
  - rewrite (loop_lookup _ _ _ _ _ _ _ (digest blob) Hrun), lookup_empty.
    rewrite decide_True by set_solver. unfold placement. by rewrite Hdest.
Qed.

Lemma add_blobs_to_zip_bundles_new_digest_witness :
  (digest Sample.layer ∉ digest <$> [Sample.config]) ∧
  (digest Sample.layer ∉ digest <$> [Sample.base_at_destination]) ∧
  outcome (add_blobs_to_zip Sample.registry
             ([Sample.config] ++ Sample.layer :: [Sample.layer_elsewhere])
             [Sample.base_at_destination])
  = inr {[ "sha256:abc" := BlobPathInZip "blobs/sha256:abc";
           "sha256:def" := BlobLocationInRegistry "base" ]} ∧
  ∃ bytes_iterator total_size,
    pull_blob Sample.registry (repository Sample.layer) (digest Sample.layer)
    = inr (bytes_iterator, total_size) ∧
    broken bytes_iterator = None ∧
    filter (λ p, p.2 = digest Sample.layer)
      (pulls (trace (add_blobs_to_zip Sample.registry
                       ([Sample.config] ++ Sample.layer :: [Sample.layer_elsewhere])
                       [Sample.base_at_destination])))
    = [(repository Sample.layer, digest Sample.layer)] ∧
    filter (λ e, e.1 = "blobs/" +:+ digest Sample.layer)
      (zip_entries (trace (add_blobs_to_zip Sample.registry
                             ([Sample.config] ++ Sample.layer :: [Sample.layer_elsewhere])
                             [Sample.base_at_destination])))
    = [("blobs/" +:+ digest Sample.layer, String.concat "" (chunks bytes_iterator))] ∧
    ({[ "sha256:abc" := BlobPathInZip "blobs/sha256:abc";
        "sha256:def" := BlobLocationInRegistry "base" ]}
     : gmap string BlobPlacement) !! digest Sample.layer
    = Some (BlobPathInZip ("blobs/" +:+ digest Sample.layer)).
Proof.
  assert (H1 : digest Sample.layer ∉ digest <$> [Sample.config]) by compute_done.
  assert (H2 : digest Sample.layer ∉ digest <$> [Sample.base_at_destination])
    by compute_done.
  split_and!; [done|done|vm_compute; reflexivity|].
  apply (add_blobs_to_zip_bundles_new_digest Sample.registry
           [Sample.config] Sample.layer [Sample.layer_elsewhere]
           [Sample.base_at_destination] H1 H2).
  vm_compute; reflexivity.
Defined.

(** C9: [add_blobs_to_zip] returns the same mapping (or raises the same
    exception), pulls the same blobs in the same order and writes the same
    archive entries as when both blob lists are first passed through
    [uniquify_blobs]. *)
Theorem add_blobs_to_zip_as_if_deduplicated
    (dxf_base : DXFBase) (blobs_to_pull blobs_already_transferred : list Blob) :
  outcome (add_blobs_to_zip dxf_base blobs_to_pull blobs_already_transferred)
  = outcome (add_blobs_to_zip dxf_base (uniquify_blobs blobs_to_pull)
               (uniquify_blobs blobs_already_transferred)) ∧
  pulls (trace (add_blobs_to_zip dxf_base blobs_to_pull blobs_already_transferred))
  = pulls (trace (add_blobs_to_zip dxf_base (uniquify_blobs blobs_to_pull)
                    (uniquify_blobs blobs_already_transferred))) ∧
  zip_entries (trace (add_blobs_to_zip dxf_base blobs_to_pull blobs_already_transferred))
  = zip_entries (trace (add_blobs_to_zip dxf_base (uniquify_blobs blobs_to_pull)
                          (uniquify_blobs blobs_already_transferred))).
Proof.
  unfold add_blobs_to_zip.
  destruct (loop_fresh dxf_base blobs_to_pull (uniquify_blobs blobs_to_pull)
              blobs_already_transferred (uniquify_blobs blobs_already_transferred)
              blobs_to_pull (λ d, eq_sym (get_blob_uniquify _ d)) 0 0 ∅)
    as [Hout Heff].
  rewrite dom_empty_L, <- uniquify_blobs_fresh in Hout, Heff.
  split_and!; [done| |].
  - by rewrite <- pulls_effects, Heff, pulls_effects.
  - by rewrite <- zip_entries_effects, Heff, zip_entries_effects.
Qed.

(** ** Resolving manifests *)

Lemma bind_ok {A B} (m : io A) (f : A → io B) (b : B) :
  outcome (m ≫= f) = inr b →
  ∃ a, outcome m = inr a ∧ outcome (f a) = inr b ∧
       trace (m ≫= f) = trace m ++ trace (f a).
Proof.
  rewrite outcome_bind, trace_bind. destruct (outcome m) as [e|a]; [done|].
  intros Hf. by exists a.
Qed.

Lemma bind_failed {A B} (m : io A) (f : A → io B) (e : exn) :
  outcome m = inl e →
  outcome (m ≫= f) = inl e ∧ trace (m ≫= f) = trace m.
Proof.
  intros Hm. rewrite outcome_bind, trace_bind, Hm. by rewrite app_nil_r.
Qed.

Section Resolution.

Variable dxf_base : DXFBase.

Lemma resolve_one_ok docker_image body blobs :
  resolve dxf_base docker_image = inr (body, blobs) →
  get_manifest_and_list_of_blobs_to_pull dxf_base docker_image
  = ([ResolveManifest docker_image], inr (mkManifest docker_image body, blobs)).
Proof. intros H. unfold get_manifest_and_list_of_blobs_to_pull. by rewrite H. Qed.

Lemma resolve_one_failed docker_image e :
  resolve dxf_base docker_image = inl e →
  get_manifest_and_list_of_blobs_to_pull dxf_base docker_image
  = ([ResolveManifest docker_image], inl e).
Proof. intros H. unfold get_manifest_and_list_of_blobs_to_pull. by rewrite H. Qed.

(** The loop stops at the first image that does not resolve. *)
Lemma get_manifests_loop_failed pre docker_image e post manifests blobs_to_pull :
  Forall (λ i, ∃ r, resolve dxf_base i = inr r) pre →
  resolve dxf_base docker_image = inl e →
  get_manifests_loop dxf_base (pre ++ docker_image :: post) manifests blobs_to_pull
  = (ResolveManifest <$> pre ++ [docker_image], inl e).
Proof.
  intros Hpre Hfail. revert manifests blobs_to_pull.
  induction Hpre as [|i pre [[body blobs] Hi] _ IH]; intros manifests blobs_to_pull.
  - simpl. by rewrite (resolve_one_failed _ _ Hfail).
  - simpl. rewrite (resolve_one_ok _ _ _ Hi). simpl. by rewrite IH.
Qed.

(** When the loop returns, every image was resolved once, in order; the
    manifests bear the names of the images and the blobs are those of
    the images resolved. *)
Lemma get_manifests_loop_ok docker_images manifests blobs_to_pull manifests' blobs' :
  outcome (get_manifests_loop dxf_base docker_images manifests blobs_to_pull)
  = inr (manifests', blobs') →
  trace (get_manifests_loop dxf_base docker_images manifests blobs_to_pull)
  = ResolveManifest <$> docker_images ∧
  docker_image_name <$> manifests'
  = (docker_image_name <$> manifests) ++ docker_images ∧
  ∀ b, b ∈ blobs' →
       b ∈ blobs_to_pull ∨
       ∃ i body blobs, i ∈ docker_images ∧
                       resolve dxf_base i = inr (body, blobs) ∧ b ∈ blobs.
Proof.
  revert manifests blobs_to_pull.
  induction docker_images as [|i rest IH]; intros manifests blobs_to_pull.
  - intros [= <- <-]. rewrite app_nil_r. split_and!; [done..|auto].
  - simpl. destruct (resolve dxf_base i) as [e|[body blobs]] eqn:Hi.
    + by rewrite (resolve_one_failed _ _ Hi).
    + rewrite (resolve_one_ok _ _ _ Hi). simpl.
      destruct (get_manifests_loop dxf_base rest _ _) as [t [e|r]] eqn:Hrest;
        [done|]. simpl. intros [= ->].
      destruct (IH (manifests ++ [mkManifest i body]) (blobs_to_pull ++ blobs))
        as (Ht & Hnames & Hblobs); [by rewrite Hrest|].
      rewrite Hrest in Ht. simpl in Ht. split_and!.
      * by rewrite Ht.
      * rewrite Hnames, fmap_app, <- app_assoc. done.
      * intros b [[Hb|Hb]%elem_of_app|(j & body' & blobs'' & Hj & Hres & Hb)]%Hblobs.
        -- by left.
        -- right. exists i, body, blobs. split_and!; [left|done..].
        -- right. exists j, body', blobs''. split_and!; [by right|done..].
Qed.

(** Whatever the outcome, the loop only resolves images of its list. *)
Lemma get_manifests_loop_trace docker_images manifests blobs_to_pull :
  ∃ k, trace (get_manifests_loop dxf_base docker_images manifests blobs_to_pull)
       = ResolveManifest <$> take k docker_images.
Proof.
  revert manifests blobs_to_pull.
  induction docker_images as [|i rest IH]; intros manifests blobs_to_pull.
  - by exists 0.
  - simpl. destruct (resolve dxf_base i) as [e|[body blobs]] eqn:Hi.
    + rewrite (resolve_one_failed _ _ Hi). by exists 1.
    + rewrite (resolve_one_ok _ _ _ Hi). simpl.
      destruct (IH (manifests ++ [mkManifest i body]) (blobs_to_pull ++ blobs))
        as [k Hk].
      destruct (get_manifests_loop dxf_base rest _ _) as [t r].
      simpl in Hk. subst t. exists (S k). by destruct r.
Qed.

(** Among images of which one does not resolve, there is a first such. *)
Lemma first_unresolved docker_images :
  (∃ i e, i ∈ docker_images ∧ resolve dxf_base i = inl e) →
  ∃ pre i e post,
    docker_images = pre ++ i :: post ∧
    Forall (λ j, ∃ r, resolve dxf_base j = inr r) pre ∧
    resolve dxf_base i = inl e.
Proof.
  induction docker_images as [|x rest IH].
  - intros (i & e & Hi & _). by apply elem_of_nil in Hi.
  - intros (i & e & Hi & Hfail).
    destruct (resolve dxf_base x) as [ex|r] eqn:Hx.
    + exists [], x, ex, rest. split_and!; [done|constructor|done].
    + destruct IH as (pre & j & ej & post & -> & Hpre & Hj).
      { apply elem_of_cons in Hi as [->|Hi]; [congruence|eauto]. }
      exists (x :: pre), j, ej, post. split_and!; [done| |done].
      constructor; eauto.
Qed.

End Resolution.

Lemma outcome_bind_inr {A B} (t : list event) (a : A) (f : A → io B) :
  outcome ((t, inr a) ≫= f) = outcome (f a).
Proof. by rewrite outcome_bind. Qed.

Lemma get_manifests_loop_results dxf_base docker_images manifests blobs_to_pull
    manifests' blobs' :
  outcome (get_manifests_loop dxf_base docker_images manifests blobs_to_pull)
  = inr (manifests', blobs') ↔
  ∃ results,
    Forall2 (λ i r, resolve dxf_base i = inr r) docker_images results ∧
    manifests' = manifests ++ zip_with (λ i r, mkManifest i r.1) docker_images results ∧
    blobs' = blobs_to_pull ++ concat (snd <$> results).
Proof.
  revert manifests blobs_to_pull.
  induction docker_images as [|i rest IH]; intros manifests blobs_to_pull.
  - simpl. split.
    + intros [= <- <-]. exists []. by rewrite !app_nil_r.
    + intros (results & ->%Forall2_nil_inv_l & -> & ->). simpl.
      by rewrite !app_nil_r.
  - simpl. destruct (resolve dxf_base i) as [e|[body blobs]] eqn:Hi.
    + rewrite (resolve_one_failed _ _ _ Hi). split; [done|].
      intros (results & (r & rs & Hr & _ & ->)%Forall2_cons_inv_l & _).
      congruence.
    + rewrite (resolve_one_ok _ _ _ _ Hi).
      rewrite outcome_bind_inr. cbv beta iota. rewrite IH. split.
      * intros (results & Hall & -> & ->).
        exists ((body, blobs) :: results). split_and!.
        -- by constructor.
        -- simpl. by rewrite <- app_assoc.
        -- simpl. by rewrite <- app_assoc.
      * intros (results & (r & rs & Hr & Hall & ->)%Forall2_cons_inv_l & -> & ->).
        rewrite Hi in Hr. injection Hr as <-.
        exists rs. split_and!; [done|simpl|simpl]; by rewrite <- app_assoc.
Qed.


(** The stages after resolution never resolve a manifest. *)
Lemma resolutions_effects t : resolutions (effects t) = resolutions t.
Proof.
  induction t as [|e t IH]; [done|].
  destruct e; unfold effects in *; simpl;
    rewrite ?filter_cons_True, ?filter_cons_False by done; simpl; by rewrite ?IH.
Qed.

Lemma resolutions_fmap (l : list string) : resolutions (ResolveManifest <$> l) = l.
Proof. unfold resolutions. induction l as [|x l IH]; simpl; [done|by f_equal]. Qed.

Lemma add_blobs_loop_no_resolution dxf_base all T i l m :
  resolutions (trace (add_blobs_loop dxf_base all T i l m)) = [].
Proof.
  revert i m. induction l as [|b r IH]; intros i m; [done|].
  rewrite loop_cons_trace, resolutions_app.
  rewrite <- (resolutions_effects (trace (add_blob_to_zip _ _ _ _ _ _))).
  rewrite add_blob_effects.
  assert (Hturn : resolutions
            match m !! digest b with
            | Some _ => []
            | None =>
                match get_blob_with_same_digest T (digest b) with
                | Some _ => []
                | None => trace (download_blob_to_zip dxf_base b)
                end
            end = []).
  { destruct (m !! digest b); [done|].
    destruct (get_blob_with_same_digest T (digest b)); [done|].
    rewrite download_trace. by destruct (pull_blob _ _ _). }
  rewrite Hturn. destruct (outcome (add_blob_to_zip _ _ _ _ _ _)); [done|].
  apply IH.
Qed.

Lemma write_manifest_no_resolution payload_descriptor manifest :
  resolutions (trace (write_manifest payload_descriptor manifest)) = [].
Proof.
  unfold write_manifest, writestr, py_in, py_getitem.
  destruct (manifests_paths payload_descriptor !! docker_image_name manifest)
    as [dest|]; [|done].
  destruct (content manifest) as [body|d]; simpl.
  - destruct (str_contains _ _); [done|]. simpl. by destruct (decide (dest = "")).
  - destruct (bool_decide _); simpl.
    + destruct (d !! "linux/amd64"); [|done]. simpl.
      by destruct (decide (dest = "")).
    + by destruct (decide (dest = "")).
Qed.

Lemma write_manifests_no_resolution payload_descriptor manifests :
  resolutions (trace (write_manifests payload_descriptor manifests)) = [].
Proof.
  induction manifests as [|manifest rest IH]; [done|]. simpl.
  rewrite trace_bind, resolutions_app, write_manifest_no_resolution.
  destruct (outcome (write_manifest payload_descriptor manifest)); [done|].
  apply IH.
Qed.

(** ** Claims about [create_zip_from_docker_images] *)

Section Pipeline.

Variable manifest_path : string → string.
Variable PYDANTIC_V2 : bool.
Variable model_dump_json : PayloadDescriptor → string.
Variable json : PayloadDescriptor → string.
Variable dxf_base : DXFBase.
Variables (docker_images_to_transfer docker_images_already_transferred : list string).

Abbreviation run :=
  (create_zip_from_docker_images manifest_path PYDANTIC_V2 model_dump_json json
     dxf_base docker_images_to_transfer docker_images_already_transferred).

Abbreviation needs_work :=
  (get_images_not_transferred_yet
     (from_images manifest_path docker_images_to_transfer
        docker_images_already_transferred)).

(** In every run the manifest resolutions come first: the trace is a run
    of resolutions followed by events among which there is none. *)
Lemma create_zip_resolves_first :
  ∃ resolved later,
    trace run = (ResolveManifest <$> resolved) ++ later ∧
    resolutions later = [].
Proof.
  unfold create_zip_from_docker_images, get_manifests_and_list_of_all_blobs.
  cbv zeta. rewrite trace_bind.
  destruct (get_manifests_loop_trace dxf_base needs_work [] []) as [k1 ->].
  destruct (outcome (get_manifests_loop dxf_base needs_work [] []))
    as [e|[manifests blobs_to_pull]].
  { exists (take k1 needs_work), []. by rewrite app_nil_r. }
  rewrite trace_bind.
  destruct (get_manifests_loop_trace dxf_base docker_images_already_transferred
              [] []) as [k2 ->].
  destruct (outcome (get_manifests_loop dxf_base docker_images_already_transferred
                       [] [])) as [e|[others blobs_already_transferred]].
  { exists (take k1 needs_work ++ take k2 docker_images_already_transferred), [].
    by rewrite !app_nil_r, fmap_app. }
  eexists (take k1 needs_work ++ take k2 docker_images_already_transferred), _.
  split; [by rewrite fmap_app, app_assoc|].
  rewrite trace_bind, resolutions_app. unfold add_blobs_to_zip.
  rewrite add_blobs_loop_no_resolution.
  destruct (outcome (add_blobs_loop _ _ _ _ _ _)) as [e|paths]; [done|].
  rewrite trace_bind, resolutions_app, write_manifests_no_resolution.
  by destruct (outcome (write_manifests _ _)).
Qed.

(** C8: when an image of the needs-work list does not resolve, the run
    raises the resolver's exception (that of the first image that fails,
    where resolution stops); up to then it has only resolved manifests:
    no blob was examined or pulled, no archive entry written, no
    descriptor serialised.  In every run, all resolutions come before
    any other event. *)
Theorem create_zip_resolution_failure :
  (∃ resolved later,
     trace run = (ResolveManifest <$> resolved) ++ later ∧
     resolutions later = []) ∧
  ((∃ image e, image ∈ needs_work ∧ resolve dxf_base image = inl e) →
   ∃ pre image e post,
     needs_work = pre ++ image :: post ∧
     Forall (λ j, ∃ r, resolve dxf_base j = inr r) pre ∧
     resolve dxf_base image = inl e ∧
     outcome run = inl e ∧
     trace run = ResolveManifest <$> pre ++ [image] ∧
     zip_entries (trace run) = [] ∧
     pulls (trace run) = []).
Proof.
  split; [apply create_zip_resolves_first|].
  intros (pre & image & e & post & Hsplit & Hpre & Hfail)%first_unresolved.
  exists pre, image, e, post.
  assert (Hfirst :
    get_manifests_and_list_of_all_blobs dxf_base needs_work
    = (ResolveManifest <$> pre ++ [image], inl e)).
  { unfold get_manifests_and_list_of_all_blobs. rewrite Hsplit.
    by apply get_manifests_loop_failed. }
  assert (Hrun : outcome run = inl e ∧
                 trace run = ResolveManifest <$> pre ++ [image]).
  { unfold create_zip_from_docker_images. cbv zeta.
    match goal with
    | |- outcome (?m ≫= ?f) = _ ∧ _ =>
        destruct (bind_failed m f e) as [-> ->]; [by rewrite Hfirst|]
    end.
    by rewrite Hfirst. }
  destruct Hrun as [Hout Htrace]. split_and!; [done..| |].
  - rewrite Htrace. clear. induction (pre ++ [image]) as [|x l IH]; done.
  - rewrite Htrace. clear. induction (pre ++ [image]) as [|x l IH]; done.
Qed.

(** C6: in a run that returns, the last event of all is the archive entry
    ["payload_descriptor.json"] holding the serialised descriptor; the
    resolutions, the bundled blobs and the manifests come before it, in
    that order. *)
Theorem create_zip_descriptor_written_last :
  outcome run = inr () →
  ∃ manifests blobs_to_pull others blobs_already_transferred paths,
    outcome (get_manifests_and_list_of_all_blobs dxf_base needs_work)
    = inr (manifests, blobs_to_pull) ∧
    outcome (get_manifests_and_list_of_all_blobs dxf_base
               docker_images_already_transferred)
    = inr (others, blobs_already_transferred) ∧
    outcome (add_blobs_to_zip dxf_base blobs_to_pull blobs_already_transferred)
    = inr paths ∧
    trace run =
      (trace (get_manifests_and_list_of_all_blobs dxf_base needs_work) ++
       trace (get_manifests_and_list_of_all_blobs dxf_base
                docker_images_already_transferred) ++
       trace (add_blobs_to_zip dxf_base blobs_to_pull blobs_already_transferred) ++
       trace (write_manifests
                (set_blobs_paths
                   (from_images manifest_path docker_images_to_transfer
                      docker_images_already_transferred) paths)
                manifests)) ++
      [ZipEntry "payload_descriptor.json"
         (if PYDANTIC_V2
          then model_dump_json
                 (set_blobs_paths
                    (from_images manifest_path docker_images_to_transfer
                       docker_images_already_transferred) paths)
          else json
                 (set_blobs_paths
                    (from_images manifest_path docker_images_to_transfer
                       docker_images_already_transferred) paths))] ∧
    last (zip_entries (trace run))
    = Some ("payload_descriptor.json",
            if PYDANTIC_V2
            then model_dump_json
                   (set_blobs_paths
                      (from_images manifest_path docker_images_to_transfer
                         docker_images_already_transferred) paths)
            else json
                   (set_blobs_paths
                      (from_images manifest_path docker_images_to_transfer
                         docker_images_already_transferred) paths)).
Proof.
  unfold create_zip_from_docker_images. cbv zeta. intros Hrun.
  apply bind_ok in Hrun as ([manifests blobs_to_pull] & H1 & Hrun & ->).
  apply bind_ok in Hrun as ([others blobs_already] & H2 & Hrun & ->).
  apply bind_ok in Hrun as (paths & H3 & Hrun & ->).
  apply bind_ok in Hrun as ([] & H4 & _ & ->).
  exists manifests, blobs_to_pull, others, blobs_already, paths.
  assert (Hlast : ∀ s, trace (writestr "payload_descriptor.json" (Str s))
                       = [ZipEntry "payload_descriptor.json" s]) by done.
  rewrite Hlast, !app_assoc. split_and!; [done..|].
  rewrite zip_entries_app. apply (last_snoc (A := string * string)).
Qed.

End Pipeline.

Lemma create_zip_resolution_failure_witness :
  (∃ image e,
     image ∈ get_images_not_transferred_yet
               (from_images Sample.manifest_path ["app:1.0"; "ghost:9"] ["base:1.0"]) ∧
     resolve Sample.registry image = inl e) ∧
  ∃ pre image e post,
    get_images_not_transferred_yet
      (from_images Sample.manifest_path ["app:1.0"; "ghost:9"] ["base:1.0"])
    = pre ++ image :: post ∧
    Forall (λ j, ∃ r, resolve Sample.registry j = inr r) pre ∧
    resolve Sample.registry image = inl e ∧
    outcome (Sample.encode ["app:1.0"; "ghost:9"] ["base:1.0"]) = inl e ∧
    trace (Sample.encode ["app:1.0"; "ghost:9"] ["base:1.0"])
    = ResolveManifest <$> pre ++ [image] ∧
    zip_entries (trace (Sample.encode ["app:1.0"; "ghost:9"] ["base:1.0"])) = [] ∧
    pulls (trace (Sample.encode ["app:1.0"; "ghost:9"] ["base:1.0"])) = [].
Proof.
  assert (H : ∃ image e,
     image ∈ get_images_not_transferred_yet
               (from_images Sample.manifest_path ["app:1.0"; "ghost:9"] ["base:1.0"]) ∧
     resolve Sample.registry image = inl e).
  { exists "ghost:9", (RegistryError "manifest unknown: ghost:9").
    split; [compute_done|reflexivity]. }
  split; [exact H|].
  exact (proj2 (create_zip_resolution_failure Sample.manifest_path true
                  Sample.dump Sample.dump Sample.registry
                  ["app:1.0"; "ghost:9"] ["base:1.0"]) H).
Defined.

Lemma create_zip_descriptor_written_last_witness :
  outcome (Sample.encode ["app:1.0"; "base:1.0"] ["base:1.0"]) = inr () ∧
  last (trace (Sample.encode ["app:1.0"; "base:1.0"] ["base:1.0"]))
  = Some (ZipEntry "payload_descriptor.json" "app:1.0,base:1.0").
Proof.
  split; [vm_compute; reflexivity|].
  destruct (create_zip_descriptor_written_last Sample.manifest_path true
              Sample.dump Sample.dump Sample.registry
              ["app:1.0"; "base:1.0"] ["base:1.0"])
    as (ms & bs & os & ts & paths & _ & _ & _ & Htrace & _);
    [vm_compute; reflexivity|].
  unfold Sample.encode. rewrite Htrace. apply last_snoc.
Defined.

(** ** Writing a manifest (lines 144-149) *)

Lemma write_manifest_amd64_variant payload_descriptor manifest dest d body :
  manifests_paths payload_descriptor !! docker_image_name manifest = Some dest →
  dest ≠ "" →
  content manifest = Dict d →
  d !! "linux/amd64" = Some body →
  write_manifest payload_descriptor manifest = ([ZipEntry dest body], inr ()).
Proof.
  intros Hdest Hne Hc Hd. unfold write_manifest, writestr, py_in, py_getitem.
  rewrite Hdest, Hc, Hd, bool_decide_eq_true_2 by eauto. simpl.
  by rewrite decide_False.
Qed.

Lemma write_manifest_whole_body payload_descriptor manifest dest s :
  manifests_paths payload_descriptor !! docker_image_name manifest = Some dest →
  dest ≠ "" →
  content manifest = Str s →
  str_contains "linux/amd64" s = false →
  write_manifest payload_descriptor manifest = ([ZipEntry dest s], inr ()).
Proof.
  intros Hdest Hne Hc Hs. unfold write_manifest, writestr, py_in.
  rewrite Hdest, Hc, Hs. simpl. by rewrite decide_False.
Qed.

(** C3, where the code departs from it: a manifest that is one body (no
    per-architecture split) whose text contains [linux/amd64] passes the
    test of line 145, a substring test on a [str], and line 146 then
    indexes the string: the run raises [TypeError] and the body is not
    written. *)
Theorem create_zip_single_body_naming_platform :
  py_in "linux/amd64" (Str Sample.annotated_body) = true ∧
  write_manifest (from_images Sample.manifest_path ["annotated:1.0"] [])
    (mkManifest "annotated:1.0" (Str Sample.annotated_body))
  = ([], inl TypeError) ∧
  Sample.encode ["annotated:1.0"] []
  = ([ResolveManifest "annotated:1.0"],
     inl TypeError).
Proof. split_and!; vm_compute; reflexivity. Qed.

(** ** Partitioning the images *)

Lemma separate_loop_spec to_transfer already needs skip :
  separate_loop to_transfer already needs skip
  = ((λ i, Stderr (SkippingImage i)) <$> filter (λ i, i ∈ already) to_transfer,
     inr (needs ++ filter (λ i, i ∉ already) to_transfer,
          skip ++ filter (λ i, i ∈ already) to_transfer)).
Proof.
  revert needs skip. induction to_transfer as [|i rest IH]; intros needs skip.
  - simpl. by rewrite !app_nil_r.
  - simpl. destruct (decide (i ∉ already)) as [Hi|Hi].
    + rewrite IH, (filter_cons_True (λ i, i ∉ already)) by done.
      rewrite (filter_cons_False (λ i, i ∈ already)) by done.
      by rewrite <- app_assoc.
    + assert (Hin : i ∈ already) by (by apply dec_stable).
      rewrite IH, (filter_cons_False (λ i, i ∉ already)) by done.
      rewrite (filter_cons_True (λ i, i ∈ already)) by done.
      by rewrite <- app_assoc.
Qed.

Lemma filter_ext_in {A} (P Q : A → Prop) `{!∀ x, Decision (P x)}
    `{!∀ x, Decision (Q x)} (l : list A) :
  (∀ x, x ∈ l → P x ↔ Q x) → filter P l = filter Q l.
Proof.
  induction l as [|x l IH]; intros Hext; [done|].
  rewrite !filter_cons, IH by (intros; apply Hext; by right).
  apply decide_ext, Hext. by left.
Qed.


Lemma get_images_not_transferred_yet_from_images manifest_path to_transfer already :
  get_images_not_transferred_yet (from_images manifest_path to_transfer already)
  = filter (λ i, i ∉ already) to_transfer.
Proof.
  unfold get_images_not_transferred_yet, from_images. simpl.
  apply filter_ext_in. intros x Hx. rewrite list_elem_of_filter. tauto.
Qed.




(** * Further properties of the encoder *)

(** ** [download_blob_to_zip] and [add_blobs_to_zip]: when pulls fail *)

Lemma download_succeeds dxf_base b :
  outcome (download_blob_to_zip dxf_base b) = inr ("blobs/" +:+ digest b) ↔
  pull_succeeds dxf_base b.
Proof.
  rewrite download_outcome. unfold pull_succeeds.
  destruct (pull_blob dxf_base (repository b) (digest b)) as [e|[s n]].
  - split; [done|]. by intros (? & ? & [=] & _).
  - destruct (broken s) eqn:Hs.
    + split; [done|]. intros (? & ? & [= <- <-] & ?). congruence.
    + split; [eauto|done].
Qed.

Lemma download_fails dxf_base b e :
  outcome (download_blob_to_zip dxf_base b) = inl e ↔ pull_fails dxf_base b e.
Proof.
  rewrite download_outcome. unfold pull_fails.
  destruct (pull_blob dxf_base (repository b) (digest b)) as [e'|[s n]].
  - split; [intros [= ->]; by left|].
    intros [[= ->]|(? & ? & [=] & _)]; done.
  - destruct (broken s) as [e'|] eqn:Hs.
    + split; [intros [= ->]; right; eauto|].
      intros [[=]|(? & ? & [= <- <-] & ?)]. congruence.
    + split; [done|]. intros [[=]|(? & ? & [= <- <-] & ?)]. congruence.
Qed.

Lemma bundled_uniquify T B : bundled T ∅ B = blobs_to_bundle B T.
Proof.
  unfold bundled, blobs_to_bundle. rewrite uniquify_blobs_fresh.
  apply list_filter_iff. intros b. apply get_blob_None.
Qed.

Lemma filter_nil_all {A} (P : A → Prop) `{!∀ x, Decision (P x)} (l : list A) :
  (∀ x, x ∈ l → ¬ P x) → filter P l = [].
Proof.
  induction l as [|x l IH]; intros Hl; [done|].
  rewrite filter_cons_False by (apply Hl; by left).
  apply IH. intros y Hy. apply Hl. by right.
Qed.

Lemma NoDup_fmap_filter {A B} (f : A → B) (P : A → Prop)
    `{!∀ x, Decision (P x)} (l : list A) :
  NoDup (f <$> l) → NoDup (f <$> filter P l).
Proof.
  induction l as [|x l IH]; [done|]. rewrite fmap_cons, NoDup_cons.
  intros [Hx Hl]. rewrite filter_cons. destruct (decide (P x)); [|auto].
  rewrite fmap_cons. constructor; [|auto].
  rewrite list_elem_of_fmap in Hx |- *.
  intros (y & Hy & [_ ?]%list_elem_of_filter). eauto.
Qed.

Lemma blobs_to_bundle_NoDup B T : NoDup (digest <$> blobs_to_bundle B T).
Proof.
  unfold blobs_to_bundle. rewrite uniquify_blobs_fresh.
  apply NoDup_fmap_filter, fresh_NoDup.
Qed.

Lemma elem_of_blobs_to_bundle_digests B T d :
  d ∈ digest <$> blobs_to_bundle B T ↔ d ∈ digest <$> B ∧ d ∉ digest <$> T.
Proof.
  unfold blobs_to_bundle. rewrite uniquify_blobs_fresh. split.
  - intros (b & -> & [Hd Hb]%list_elem_of_filter)%list_elem_of_fmap.
    split; [|done]. apply list_elem_of_fmap_2.
    by eapply sublist_subseteq; [apply fresh_sublist|].
  - intros [Hd HT]. apply elem_of_digests in Hd.
    assert (Hf : d ∈ digests (fresh ∅ B))
      by (rewrite elem_of_fresh_digests; set_solver).
    apply elem_of_digests, list_elem_of_fmap in Hf as (b & -> & Hb).
    apply list_elem_of_fmap_2. by apply list_elem_of_filter.
Qed.

Section LoopOutcomes.

Variable dxf_base : DXFBase.
Variables (all T : list Blob).

Lemma turn_downloads_ok i b m m1 :
  outcome (add_blob_to_zip dxf_base all T i b m) = inr m1 →
  Forall (λ b, outcome (download_blob_to_zip dxf_base b) = inr ("blobs/" +:+ digest b))
    (bundled T (dom m) [b]).
Proof.
  intros Hturn. apply (loop_downloads_ok dxf_base all T i [b] m m1).
  rewrite loop_cons_outcome, Hturn. done.
Qed.

(** The loop returns as soon as every bundled blob downloads. *)
Lemma loop_returns i l m :
  Forall (λ b, outcome (download_blob_to_zip dxf_base b) = inr ("blobs/" +:+ digest b))
    (bundled T (dom m) l) →
  ∃ m', outcome (add_blobs_loop dxf_base all T i l m) = inr m'.
Proof.
  revert i m. induction l as [|b r IH]; intros i m; [by eexists|].
  rewrite bundled_cons, Forall_app. intros [Hb Hr].
  rewrite loop_cons_outcome.
  assert (Hturn : ∃ m1, outcome (add_blob_to_zip dxf_base all T i b m) = inr m1).
  { rewrite add_blob_outcome. unfold bundled in Hb. simpl in Hb.
    destruct (m !! digest b) eqn:Hm; [eauto|].
    rewrite decide_False in Hb by (by rewrite not_elem_of_dom).
    destruct (get_blob_with_same_digest T (digest b)) eqn:Hget; [eauto|].
    rewrite filter_cons_True in Hb by done.
    apply Forall_cons in Hb as [-> _]. eauto. }
  destruct Hturn as [m1 Hturn]. rewrite Hturn.
  apply IH. by rewrite (turn_dom _ _ _ _ _ _ _ Hturn).
Qed.

(** When the loop raises, it is at the first bundled blob whose download
    fails, and the pulls stop there. *)
Lemma loop_failed i l m e :
  outcome (add_blobs_loop dxf_base all T i l m) = inl e →
  ∃ before b after,
    bundled T (dom m) l = before ++ b :: after ∧
    Forall (λ b, outcome (download_blob_to_zip dxf_base b)
                 = inr ("blobs/" +:+ digest b)) before ∧
    outcome (download_blob_to_zip dxf_base b) = inl e ∧
    pulls (trace (add_blobs_loop dxf_base all T i l m))
    = blob_pull <$> before ++ [b].
Proof.
  revert i m. induction l as [|b r IH]; intros i m; [done|].
  rewrite loop_cons_outcome, loop_cons_trace, pulls_app, turn_pulls, bundled_cons.
  destruct (outcome (add_blob_to_zip dxf_base all T i b m)) as [e'|m1] eqn:Hturn.
  - intros [= ->]. rewrite add_blob_outcome in Hturn.
    unfold bundled at 1 3. simpl.
    destruct (m !! digest b) eqn:Hm; [done|].
    rewrite decide_False by (by rewrite not_elem_of_dom).
    destruct (get_blob_with_same_digest T (digest b)) eqn:Hget; [done|].
    rewrite filter_cons_True by done.
    destruct (outcome (download_blob_to_zip dxf_base b)) eqn:Hd; [|done].
    injection Hturn as ->.
    exists [], b, (bundled T ({[digest b]} ∪ dom m) r).
    rewrite filter_nil. split_and!; [done|constructor|done|done].
  - intros (before & b' & after & Hsplit & Hbefore & Hfail & Hpulls)%IH.
    rewrite (turn_dom _ _ _ _ _ _ _ Hturn) in Hsplit.
    exists (bundled T (dom m) [b] ++ before), b', after. split_and!.
    + by rewrite Hsplit, <- app_assoc.
    + apply Forall_app. split; [by eapply turn_downloads_ok|done].
    + done.
    + by rewrite Hpulls, <- fmap_app, app_assoc.
Qed.

End LoopOutcomes.

(** The pulls cannot go past a blob to bundle whose download fails. *)
Lemma prefix_up_to_first {A} (l1 l2 r1 r2 : list A) (x y : A) :
  l1 ++ x :: r1 = l2 ++ y :: r2 → y ∉ l1 → (l1 ++ [x]) `prefix_of` (l2 ++ [y]).
Proof.
  revert l2. induction l1 as [|a l1 IH]; intros l2 Heq Hy.
  - destruct l2 as [|z l2]; simpl in *.
    + by injection Heq as ->.
    + injection Heq as -> _. apply prefix_cons, prefix_nil.
  - destruct l2 as [|z l2]; simpl in *.
    + injection Heq as -> _. exfalso. apply Hy. by left.
    + injection Heq as -> Heq. apply prefix_cons, IH; [done|].
      intros Hin. apply Hy. by right.
Qed.

(** X1: [add_blobs_to_zip] returns only if every blob it has to bundle
    (the deduplicated to-transfer blobs whose digest is not at the
    destination) was pulled to the end of its stream: a pull that fails,
    at the request or in mid-stream, is never swallowed. *)
Theorem add_blobs_to_zip_returns_only_if
    (dxf_base : DXFBase) (blobs_to_pull blobs_already_transferred : list Blob)
    (m : gmap string BlobPlacement) :
  outcome (add_blobs_to_zip dxf_base blobs_to_pull blobs_already_transferred) = inr m →
  Forall (pull_succeeds dxf_base)
    (blobs_to_bundle blobs_to_pull blobs_already_transferred).
Proof.
  rewrite <- bundled_uniquify. unfold add_blobs_to_zip.
  intros Hrun. apply loop_downloads_ok in Hrun. rewrite dom_empty_L in Hrun.
  eapply Forall_impl; [exact Hrun|]. intros b. apply download_succeeds.
Qed.

Lemma add_blobs_to_zip_returns_only_if_witness :
  outcome (add_blobs_to_zip Sample.registry
             [Sample.layer; Sample.config; Sample.layer_elsewhere]
             [Sample.base_at_destination])
  = inr {[ "sha256:abc" := BlobPathInZip "blobs/sha256:abc";
           "sha256:def" := BlobLocationInRegistry "base" ]} ∧
  Forall (pull_succeeds Sample.registry)
    (blobs_to_bundle [Sample.layer; Sample.config; Sample.layer_elsewhere]
       [Sample.base_at_destination]).
Proof.
  split; [vm_compute; reflexivity|].
  apply (add_blobs_to_zip_returns_only_if Sample.registry
           [Sample.layer; Sample.config; Sample.layer_elsewhere]
           [Sample.base_at_destination]
           {[ "sha256:abc" := BlobPathInZip "blobs/sha256:abc";
              "sha256:def" := BlobLocationInRegistry "base" ]}).
  vm_compute; reflexivity.
Defined.

(** X2: a blob to bundle whose pull fails (at the request or in
    mid-stream) stops [add_blobs_to_zip]: the function does not return,
    and no blob to bundle after that one is ever asked for (no retry, no
    continuation with the next blob). *)
Theorem add_blobs_to_zip_stops_at_failed_pull
    (dxf_base : DXFBase) (blobs_to_pull blobs_already_transferred : list Blob)
    (before : list Blob) (b : Blob) (after : list Blob) (e : exn) :
  blobs_to_bundle blobs_to_pull blobs_already_transferred = before ++ b :: after →
  pull_fails dxf_base b e →
  (∀ m, outcome (add_blobs_to_zip dxf_base blobs_to_pull blobs_already_transferred)
        ≠ inr m) ∧
  (pulls (trace (add_blobs_to_zip dxf_base blobs_to_pull blobs_already_transferred))
   `prefix_of` blob_pull <$> before ++ [b]).
Proof.
  rewrite <- bundled_uniquify. unfold add_blobs_to_zip.
  intros Hsplit Hfail%download_fails.
  assert (Hnot : ∀ m, outcome (add_blobs_loop dxf_base blobs_to_pull
                                 blobs_already_transferred 0 blobs_to_pull ∅)
                      ≠ inr m).
  { intros m Hrun. apply loop_downloads_ok in Hrun.
    rewrite dom_empty_L, Hsplit, Forall_app, Forall_cons in Hrun.
    destruct Hrun as (_ & Hb & _). congruence. }
  split; [done|].
  destruct (outcome (add_blobs_loop dxf_base blobs_to_pull
                       blobs_already_transferred 0 blobs_to_pull ∅))
    as [e'|m] eqn:Hrun; [|by destruct (Hnot m)].
  apply loop_failed in Hrun
    as (before0 & b0 & after0 & Hsplit0 & Hbefore0 & _ & ->).
  rewrite dom_empty_L in Hsplit0. rewrite Hsplit in Hsplit0.
  assert (Hpre : (before0 ++ [b0]) `prefix_of` (before ++ [b])).
  { symmetry in Hsplit0. eapply prefix_up_to_first; [exact Hsplit0|].
    intros Hin. rewrite Forall_forall in Hbefore0. specialize (Hbefore0 b Hin).
    congruence. }
  destruct Hpre as [k Hk]. exists (blob_pull <$> k). by rewrite Hk, fmap_app.
Qed.

Lemma add_blobs_to_zip_stops_at_failed_pull_witness :
  blobs_to_bundle [Sample.layer; Sample.config; Sample.base_mirror] []
  = [Sample.layer] ++ Sample.config :: [] ∧
  pull_fails Sample.flaky_registry Sample.config (RegistryError "connection reset") ∧
  (pulls (trace (add_blobs_to_zip Sample.flaky_registry
                   [Sample.layer; Sample.config; Sample.base_mirror] []))
   `prefix_of` blob_pull <$> [Sample.layer] ++ [Sample.config]).
Proof.
  assert (H1 : blobs_to_bundle [Sample.layer; Sample.config; Sample.base_mirror] []
               = [Sample.layer] ++ Sample.config :: []) by (vm_compute; reflexivity).
  assert (H2 : pull_fails Sample.flaky_registry Sample.config
                 (RegistryError "connection reset")) by (left; reflexivity).
  split_and!; [exact H1|exact H2|].
  by apply (add_blobs_to_zip_stops_at_failed_pull Sample.flaky_registry
              [Sample.layer; Sample.config; Sample.base_mirror] []
              [Sample.layer] Sample.config [] (RegistryError "connection reset")).
Defined.

(** X3: when every to-transfer digest is found in the already-transferred
    list, [add_blobs_to_zip] cannot fail, whatever the registry answers:
    it returns without a single pull or archive entry, and places every
    digest in the registry under the repository of its first match. *)
Theorem add_blobs_to_zip_nothing_to_bundle
    (dxf_base : DXFBase) (blobs_to_pull blobs_already_transferred : list Blob) :
  (∀ b, b ∈ blobs_to_pull → digest b ∈ digest <$> blobs_already_transferred) →
  ∃ m,
    outcome (add_blobs_to_zip dxf_base blobs_to_pull blobs_already_transferred)
    = inr m ∧
    pulls (trace (add_blobs_to_zip dxf_base blobs_to_pull blobs_already_transferred))
    = [] ∧
    zip_entries (trace (add_blobs_to_zip dxf_base blobs_to_pull
                          blobs_already_transferred)) = [] ∧
    ∀ b, b ∈ blobs_to_pull →
         ∃ dest_blob,
           get_blob_with_same_digest blobs_already_transferred (digest b)
           = Some dest_blob ∧
           m !! digest b = Some (BlobLocationInRegistry (repository dest_blob)).
Proof.
  intros Hall.
  assert (Hnone : bundled blobs_already_transferred ∅ blobs_to_pull = []).
  { unfold bundled. apply filter_nil_all. intros b Hb Hget.
    apply get_blob_None in Hget. apply Hget, Hall.
    by eapply sublist_subseteq; [apply fresh_sublist|]. }
  unfold add_blobs_to_zip.
  destruct (loop_returns dxf_base blobs_to_pull blobs_already_transferred 0
              blobs_to_pull ∅) as [m Hrun].
  { rewrite dom_empty_L, Hnone. constructor. }
  exists m. split_and!; [done| | |].
  - by rewrite (loop_pulls _ _ _ _ _ _ _ Hrun), dom_empty_L, Hnone.
  - by rewrite (loop_zip_entries _ _ _ _ _ _ _ Hrun), dom_empty_L, Hnone.
  - intros b Hb. pose proof (Hall b Hb) as Hd.
    destruct (get_blob_with_same_digest blobs_already_transferred (digest b))
      as [dest_blob|] eqn:Hget; [|by apply get_blob_None in Hget].
    exists dest_blob. split; [done|].
    rewrite (loop_lookup _ _ _ _ _ _ _ (digest b) Hrun), lookup_empty.
    rewrite decide_True by (by apply list_elem_of_fmap_2).
    unfold placement. by rewrite Hget.
Qed.

Lemma add_blobs_to_zip_nothing_to_bundle_witness :
  (∀ b, b ∈ [Sample.config] →
        digest b ∈ digest <$> [Sample.base_at_destination; Sample.base_mirror]) ∧
  ∃ m,
    outcome (add_blobs_to_zip Sample.flaky_registry [Sample.config]
               [Sample.base_at_destination; Sample.base_mirror]) = inr m ∧
    m !! "sha256:def" = Some (BlobLocationInRegistry "base").
Proof.
  assert (H : ∀ b, b ∈ [Sample.config] →
                   digest b ∈ digest <$> [Sample.base_at_destination; Sample.base_mirror]).
  { intros b ->%list_elem_of_singleton. compute_done. }
  split; [exact H|].
  destruct (add_blobs_to_zip_nothing_to_bundle Sample.flaky_registry
              [Sample.config] [Sample.base_at_destination; Sample.base_mirror] H)
    as (m & Hrun & _ & _ & Hplaced).
  exists m. split; [done|].
  destruct (Hplaced Sample.config) as (dest_blob & Hget & Hm); [by left|].
  injection Hget as <-. exact Hm.
Defined.

(** ** [add_blobs_to_zip]: what is pulled and what is written *)

(** X4: whatever the outcome, [add_blobs_to_zip] pulls no digest twice and
    its pulls are an initial segment of the blobs to bundle, each taken
    from the repository of the first to-transfer blob bearing its digest;
    when it returns, all of them were pulled and the archive holds one
    entry ["blobs/<digest>"] for each, in the same order. *)
Theorem add_blobs_to_zip_pulls_each_digest_once
    (dxf_base : DXFBase) (blobs_to_pull blobs_already_transferred : list Blob) :
  NoDup (snd <$> pulls (trace (add_blobs_to_zip dxf_base blobs_to_pull
                                 blobs_already_transferred))) ∧
  (pulls (trace (add_blobs_to_zip dxf_base blobs_to_pull blobs_already_transferred))
   `prefix_of` blob_pull <$> blobs_to_bundle blobs_to_pull blobs_already_transferred) ∧
  ∀ m,
    outcome (add_blobs_to_zip dxf_base blobs_to_pull blobs_already_transferred)
    = inr m →
    pulls (trace (add_blobs_to_zip dxf_base blobs_to_pull blobs_already_transferred))
    = blob_pull <$> blobs_to_bundle blobs_to_pull blobs_already_transferred ∧
    zip_entries (trace (add_blobs_to_zip dxf_base blobs_to_pull
                          blobs_already_transferred))
    = (λ b, ("blobs/" +:+ digest b, blob_bytes dxf_base b)) <$>
        blobs_to_bundle blobs_to_pull blobs_already_transferred.
Proof.
  unfold add_blobs_to_zip.
  pose proof (loop_pulls_prefix dxf_base blobs_to_pull blobs_already_transferred
                0 blobs_to_pull ∅) as Hprefix.
  rewrite dom_empty_L, bundled_uniquify in Hprefix. split_and!.
  - destruct Hprefix as [k Hk].
    pose proof (blobs_to_bundle_NoDup blobs_to_pull blobs_already_transferred)
      as Hnodup.
    assert (Hsnd : snd <$> (blob_pull <$>
                     blobs_to_bundle blobs_to_pull blobs_already_transferred)
                   = digest <$> blobs_to_bundle blobs_to_pull blobs_already_transferred)
      by (by rewrite <- list_fmap_compose).
    rewrite <- Hsnd, Hk, fmap_app in Hnodup. by apply NoDup_app in Hnodup as [? _].
  - done.
  - intros m Hrun. split.
    + by rewrite (loop_pulls _ _ _ _ _ _ _ Hrun), dom_empty_L, bundled_uniquify.
    + by rewrite (loop_zip_entries _ _ _ _ _ _ _ Hrun), dom_empty_L, bundled_uniquify.
Qed.

(** X5: when [add_blobs_to_zip] returns, the mapping and the archive
    agree: a digest is placed at a zip path exactly when that path is
    ["blobs/<digest>"] and the archive has an entry under it, and it is
    placed in the registry exactly when its digest is found in the
    already-transferred list. *)
Theorem add_blobs_to_zip_mapping_matches_archive
    (dxf_base : DXFBase) (blobs_to_pull blobs_already_transferred : list Blob)
    (m : gmap string BlobPlacement) :
  outcome (add_blobs_to_zip dxf_base blobs_to_pull blobs_already_transferred) = inr m →
  (∀ d p,
     m !! d = Some (BlobPathInZip p) ↔
     p = "blobs/" +:+ d ∧
     ∃ data, (p, data) ∈ zip_entries
                           (trace (add_blobs_to_zip dxf_base blobs_to_pull
                                     blobs_already_transferred))) ∧
  (∀ d r,
     m !! d = Some (BlobLocationInRegistry r) ↔
     d ∈ digest <$> blobs_to_pull ∧
     ∃ dest_blob,
       get_blob_with_same_digest blobs_already_transferred d = Some dest_blob ∧
       repository dest_blob = r).
Proof.
  unfold add_blobs_to_zip. intros Hrun.
  rewrite (loop_zip_entries _ _ _ _ _ _ _ Hrun), dom_empty_L, bundled_uniquify.
  assert (Hlook : ∀ d, m !! d =
            if decide (d ∈ digest <$> blobs_to_pull)
            then Some (placement blobs_already_transferred d) else None).
  { intros d. by rewrite (loop_lookup _ _ _ _ _ _ _ d Hrun), lookup_empty. }
  split.
  - intros d p. rewrite Hlook. unfold placement. split.
    + destruct (decide (d ∈ digest <$> blobs_to_pull)) as [Hd|]; [|done].
      destruct (get_blob_with_same_digest blobs_already_transferred d) eqn:Hget;
        [done|].
      intros [= <-]. split; [done|]. apply get_blob_None in Hget.
      assert (Hb : d ∈ digest <$> blobs_to_bundle blobs_to_pull
                                    blobs_already_transferred)
        by (by apply elem_of_blobs_to_bundle_digests).
      apply list_elem_of_fmap in Hb as (b & -> & Hb).
      exists (blob_bytes dxf_base b).
      apply list_elem_of_fmap. by exists b.
    + intros [-> (data & (b & Heq & Hb)%list_elem_of_fmap)].
      pose proof (f_equal fst Heq) as Hp. apply (blob_path_inj d (digest b)) in Hp.
      subst d.
      assert (Hd : digest b ∈ digest <$> blobs_to_bundle blobs_to_pull
                                           blobs_already_transferred)
        by (by apply list_elem_of_fmap_2).
      apply elem_of_blobs_to_bundle_digests in Hd as [Hin Hout].
      rewrite decide_True by done. apply get_blob_None in Hout. by rewrite Hout.
  - intros d r. rewrite Hlook. unfold placement. split.
    + destruct (decide (d ∈ digest <$> blobs_to_pull)) as [Hd|]; [|done].
      destruct (get_blob_with_same_digest blobs_already_transferred d)
        as [dest_blob|]; [|done].
      intros [= <-]. eauto.
    + intros (Hd & dest_blob & Hget & <-).
      by rewrite decide_True, Hget by done.
Qed.

Lemma add_blobs_to_zip_mapping_matches_archive_witness :
  outcome (add_blobs_to_zip Sample.registry [Sample.layer; Sample.config]
             [Sample.base_at_destination])
  = inr {[ "sha256:abc" := BlobPathInZip "blobs/sha256:abc";
           "sha256:def" := BlobLocationInRegistry "base" ]} ∧
  ∃ data, ("blobs/sha256:abc", data) ∈
          zip_entries (trace (add_blobs_to_zip Sample.registry
                                [Sample.layer; Sample.config]
                                [Sample.base_at_destination])).
Proof.
  split; [vm_compute; reflexivity|].
  destruct (add_blobs_to_zip_mapping_matches_archive Sample.registry
              [Sample.layer; Sample.config] [Sample.base_at_destination]
              {[ "sha256:abc" := BlobPathInZip "blobs/sha256:abc";
                 "sha256:def" := BlobLocationInRegistry "base" ]})
    as [Hzip _]; [vm_compute; reflexivity|].
  apply (Hzip "sha256:abc" "blobs/sha256:abc"). vm_compute; reflexivity.
Defined.

(** X6: the mapping returned depends only on the digests of the
    to-transfer blobs and on the repository of the first destination
    match of each digest: neither the repositories of the to-transfer
    blobs nor the registry that serves the pulls change it. *)
Theorem add_blobs_to_zip_mapping_digest_keyed
    (dxf_base dxf_base' : DXFBase)
    (blobs_to_pull blobs_to_pull' : list Blob)
    (blobs_already_transferred blobs_already_transferred' : list Blob)
    (m m' : gmap string BlobPlacement) :
  digest <$> blobs_to_pull = digest <$> blobs_to_pull' →
  (∀ d, repository <$> get_blob_with_same_digest blobs_already_transferred d
        = repository <$> get_blob_with_same_digest blobs_already_transferred' d) →
  outcome (add_blobs_to_zip dxf_base blobs_to_pull blobs_already_transferred) = inr m →
  outcome (add_blobs_to_zip dxf_base' blobs_to_pull' blobs_already_transferred')
  = inr m' →
  m = m'.
Proof.
  unfold add_blobs_to_zip. intros Hdigests Hdest Hrun Hrun'.
  apply map_eq. intros d.
  rewrite (loop_lookup _ _ _ _ _ _ _ d Hrun), (loop_lookup _ _ _ _ _ _ _ d Hrun').
  rewrite !lookup_empty, Hdigests. destruct (decide _); [|done].
  unfold placement. specialize (Hdest d).
  destruct (get_blob_with_same_digest blobs_already_transferred d),
    (get_blob_with_same_digest blobs_already_transferred' d);
    simpl in Hdest; congruence.
Qed.

Lemma add_blobs_to_zip_mapping_digest_keyed_witness :
  digest <$> [Sample.layer; Sample.config]
  = digest <$> [Sample.layer_elsewhere; Sample.base_mirror] ∧
  outcome (add_blobs_to_zip Sample.registry [Sample.layer; Sample.config] [])
  = outcome (add_blobs_to_zip Sample.registry
               [Sample.layer_elsewhere; Sample.base_mirror] []).
Proof.
  split; [reflexivity|].
  assert (H1 : outcome (add_blobs_to_zip Sample.registry
                          [Sample.layer; Sample.config] [])
               = inr {[ "sha256:abc" := BlobPathInZip "blobs/sha256:abc";
                        "sha256:def" := BlobPathInZip "blobs/sha256:def" ]})
    by (vm_compute; reflexivity).
  destruct (outcome (add_blobs_to_zip Sample.registry
                       [Sample.layer_elsewhere; Sample.base_mirror] []))
    as [e|m'] eqn:H2; [by vm_compute in H2|].
  rewrite H1. f_equal.
  exact (add_blobs_to_zip_mapping_digest_keyed Sample.registry Sample.registry
           [Sample.layer; Sample.config] [Sample.layer_elsewhere; Sample.base_mirror]
           [] [] _ m' eq_refl (λ _, eq_refl) H1 H2).
Defined.

(** ** [uniquify_blobs] and [get_blob_with_same_digest]: composition *)

Lemma fresh_union s1 s2 l :
  fresh (s1 ∪ s2) l = filter (λ b, digest b ∉ s1) (fresh s2 l).
Proof.
  revert s2. induction l as [|b r IH]; intros s2; simpl; [done|].
  destruct (decide (digest b ∈ s2)) as [H2|H2].
  - rewrite decide_True by set_solver. apply IH.
  - destruct (decide (digest b ∈ s1)) as [H1|H1].
    + rewrite decide_True by set_solver.
      rewrite filter_cons_False by (intros ?; done).
      rewrite <- IH. f_equal. set_solver.
    + rewrite decide_False by set_solver.
      rewrite filter_cons_True by done. rewrite <- IH. do 2 f_equal. set_solver.
Qed.

Lemma fresh_NoDup_id seen l :
  NoDup (digest <$> l) → (∀ b, b ∈ l → digest b ∉ seen) → fresh seen l = l.
Proof.
  revert seen. induction l as [|b r IH]; intros seen Hnd Hseen; simpl; [done|].
  rewrite fmap_cons in Hnd. apply NoDup_cons in Hnd as [Hb Hr].
  rewrite decide_False by (apply Hseen; by left). f_equal.
  apply IH; [done|]. intros x Hx. rewrite not_elem_of_union. split.
  - rewrite elem_of_singleton. intros Heq. apply Hb. rewrite <- Heq.
    by apply list_elem_of_fmap_2.
  - apply Hseen. by right.
Qed.

Lemma fresh_same_length seen l :
  length (fresh seen l) = length l → fresh seen l = l.
Proof.
  revert seen. induction l as [|b r IH]; intros seen; simpl; [done|].
  destruct (decide (digest b ∈ seen)).
  - pose proof (sublist_length _ _ (fresh_sublist seen r)). lia.
  - simpl. intros [= Hlen]. f_equal. by apply IH.
Qed.

(** X7: [uniquify_blobs] leaves a list unchanged exactly when no two of
    its blobs share a digest; otherwise the result is strictly shorter. *)
Theorem uniquify_blobs_fixed_point (blobs : list Blob) :
  (uniquify_blobs blobs = blobs ↔ NoDup (digest <$> blobs)) ∧
  (length (uniquify_blobs blobs) ≤ length blobs)%nat ∧
  (¬ NoDup (digest <$> blobs) →
   (length (uniquify_blobs blobs) < length blobs)%nat).
Proof.
  rewrite uniquify_blobs_fresh.
  assert (Hfix : fresh ∅ blobs = blobs ↔ NoDup (digest <$> blobs)).
  { split.
    - intros <-. apply fresh_NoDup.
    - intros Hnd. apply fresh_NoDup_id; [done|]. intros. apply not_elem_of_empty. }
  assert (Hle : (length (fresh ∅ blobs) ≤ length blobs)%nat)
    by apply sublist_length, fresh_sublist.
  split_and!; [done..|].
  intros Hdup. destruct (decide (length (fresh ∅ blobs) = length blobs)) as [Heq|];
    [|lia].
  exfalso. apply Hdup, Hfix.
  by apply fresh_same_length.
Qed.

Lemma uniquify_blobs_fixed_point_witness :
  ¬ NoDup (digest <$> [Sample.layer; Sample.config; Sample.layer_elsewhere]) ∧
  (length (uniquify_blobs [Sample.layer; Sample.config; Sample.layer_elsewhere])
   < length [Sample.layer; Sample.config; Sample.layer_elsewhere])%nat.
Proof.
  assert (H : ¬ NoDup (digest <$> [Sample.layer; Sample.config;
                                    Sample.layer_elsewhere])).
  { intros Hnd. apply NoDup_cons in Hnd as [Hnotin _]. apply Hnotin.
    right. left. }
  split; [exact H|].
  by apply (uniquify_blobs_fixed_point
              [Sample.layer; Sample.config; Sample.layer_elsewhere]).
Defined.

(** X8: deduplicating a concatenation: the deduplicated first list, then
    the deduplicated second list without the digests of the first.  So
    appending blobs whose digests are all known changes nothing. *)
Theorem uniquify_blobs_app (blobs1 blobs2 : list Blob) :
  uniquify_blobs (blobs1 ++ blobs2)
  = uniquify_blobs blobs1 ++
    filter (λ b, digest b ∉ digest <$> blobs1) (uniquify_blobs blobs2) ∧
  ((∀ b, b ∈ blobs2 → digest b ∈ digest <$> blobs1) →
   uniquify_blobs (blobs1 ++ blobs2) = uniquify_blobs blobs1).
Proof.
  rewrite !uniquify_blobs_fresh, fresh_app.
  assert (Hsecond : fresh (digests blobs1 ∪ ∅) blobs2
                    = filter (λ b, digest b ∉ digest <$> blobs1) (fresh ∅ blobs2)).
  { rewrite fresh_union. apply list_filter_iff. intros b.
    by rewrite elem_of_digests. }
  rewrite Hsecond. split; [done|].
  intros Hknown. rewrite filter_nil_all; [by rewrite app_nil_r|].
  intros b Hb Hd. apply Hd, Hknown.
  by eapply sublist_subseteq; [apply fresh_sublist|].
Qed.

Lemma uniquify_blobs_app_witness :
  (∀ b, b ∈ [Sample.layer_elsewhere; Sample.base_mirror] →
        digest b ∈ digest <$> [Sample.layer; Sample.config]) ∧
  uniquify_blobs ([Sample.layer; Sample.config] ++
                  [Sample.layer_elsewhere; Sample.base_mirror])
  = uniquify_blobs [Sample.layer; Sample.config].
Proof.
  assert (H : ∀ b, b ∈ [Sample.layer_elsewhere; Sample.base_mirror] →
                   digest b ∈ digest <$> [Sample.layer; Sample.config]).
  { intros b [->|[->|[]%elem_of_nil]%elem_of_cons]%elem_of_cons; compute_done. }
  split; [exact H|].
  by apply (uniquify_blobs_app [Sample.layer; Sample.config]
              [Sample.layer_elsewhere; Sample.base_mirror]).
Defined.

(** X9: looking a digest up in a concatenation answers from the first
    list when it has the digest and from the second otherwise; a blob
    returned belongs to the list and bears the digest asked for. *)
Theorem get_blob_with_same_digest_app (l1 l2 : list Blob) (d : string) :
  get_blob_with_same_digest (l1 ++ l2) d
  = match get_blob_with_same_digest l1 d with
    | Some blob => Some blob
    | None => get_blob_with_same_digest l2 d
    end ∧
  ∀ blob, get_blob_with_same_digest l1 d = Some blob →
          blob ∈ l1 ∧ digest blob = d.
Proof.
  split.
  - induction l1 as [|b r IH]; simpl; [done|]. by destruct (decide (digest b = d)).
  - intros blob (pre & post & -> & Hd & _)%get_blob_Some.
    split; [|done]. apply elem_of_app. right. by left.
Qed.

Lemma get_blob_with_same_digest_app_witness :
  get_blob_with_same_digest [Sample.layer; Sample.base_at_destination] "sha256:def"
  = Some Sample.base_at_destination ∧
  (Sample.base_at_destination ∈ [Sample.layer; Sample.base_at_destination]) ∧
  digest Sample.base_at_destination = "sha256:def".
Proof.
  split; [reflexivity|].
  by apply (get_blob_with_same_digest_app
              [Sample.layer; Sample.base_at_destination] [] "sha256:def").
Defined.

(** ** [separate_images_to_transfer_and_images_to_skip]: edge cases *)

(** X10: with nothing transferred before, every image needs work and
    nothing is printed; when every image was transferred before, all are
    skipped; and the two lists returned are stable: separating the first
    again skips nothing more (silently), separating the second again
    skips all of it. *)
Theorem separate_images_stable
    (docker_images_to_transfer docker_images_already_transferred : list string) :
  separate_images_to_transfer_and_images_to_skip docker_images_to_transfer []
  = ([], inr (docker_images_to_transfer, [])) ∧
  ((∀ i, i ∈ docker_images_to_transfer → i ∈ docker_images_already_transferred) →
   outcome (separate_images_to_transfer_and_images_to_skip
              docker_images_to_transfer docker_images_already_transferred)
   = inr ([], docker_images_to_transfer)) ∧
  ∀ needs_work skip,
    outcome (separate_images_to_transfer_and_images_to_skip
               docker_images_to_transfer docker_images_already_transferred)
    = inr (needs_work, skip) →
    separate_images_to_transfer_and_images_to_skip needs_work
      docker_images_already_transferred
    = ([], inr (needs_work, [])) ∧
    outcome (separate_images_to_transfer_and_images_to_skip skip
               docker_images_already_transferred)
    = inr ([], skip).
Proof.
  unfold separate_images_to_transfer_and_images_to_skip.
  assert (Hall : ∀ (P : string → Prop) `{!∀ x, Decision (P x)} (l : list string),
            (∀ x, x ∈ l → P x) → filter P l = l).
  { intros P ? l. induction l as [|x l IH]; intros Hl; [done|].
    rewrite filter_cons_True by (apply Hl; by left). f_equal.
    apply IH. intros y Hy. apply Hl. by right. }
  split_and!.
  - rewrite separate_loop_spec.
    rewrite (filter_nil_all (λ i, i ∈ [])) by (intros x _; apply not_elem_of_nil).
    rewrite (Hall (λ i, i ∉ [])); [done|]. intros x _. apply not_elem_of_nil.
  - intros Hsub. rewrite separate_loop_spec. simpl.
    rewrite (Hall (λ i, i ∈ docker_images_already_transferred)) by done.
    rewrite (filter_nil_all (λ i, i ∉ docker_images_already_transferred));
      [done|].
    intros x Hx Hnot. by apply Hnot, Hsub.
  - intros needs_work skip. rewrite separate_loop_spec. simpl. intros [= Hn Hs].
    assert (Hneeds : ∀ x, x ∈ needs_work → x ∉ docker_images_already_transferred)
      by (subst needs_work; by intros x [Hx _]%list_elem_of_filter).
    assert (Hskip : ∀ x, x ∈ skip → x ∈ docker_images_already_transferred)
      by (subst skip; by intros x [Hx _]%list_elem_of_filter).
    clear Hn Hs. rewrite !separate_loop_spec. simpl. split.
    + rewrite (filter_nil_all (λ i, i ∈ docker_images_already_transferred))
        by (intros x Hx; by apply Hneeds).
      by rewrite (Hall (λ i, i ∉ docker_images_already_transferred)).
    + rewrite (Hall (λ i, i ∈ docker_images_already_transferred)) by done.
      rewrite (filter_nil_all (λ i, i ∉ docker_images_already_transferred));
        [done|].
      intros x Hx Hnot. by apply Hnot, Hskip.
Qed.

Lemma separate_images_stable_witness :
  outcome (separate_images_to_transfer_and_images_to_skip
             ["base:1.0"; "app:1.0"; "tools:2"] ["base:1.0"; "tools:2"])
  = inr (["app:1.0"], ["base:1.0"; "tools:2"]) ∧
  separate_images_to_transfer_and_images_to_skip ["app:1.0"] ["base:1.0"; "tools:2"]
  = ([], inr (["app:1.0"], [])).
Proof.
  split; [vm_compute; reflexivity|].
  destruct (separate_images_stable ["base:1.0"; "app:1.0"; "tools:2"]
              ["base:1.0"; "tools:2"]) as (_ & _ & Hagain).
  apply (Hagain ["app:1.0"] ["base:1.0"; "tools:2"]).
  vm_compute; reflexivity.
Defined.

(** ** [get_manifests_and_list_of_all_blobs]: what it returns *)

(** X11: [get_manifests_and_list_of_all_blobs] returns exactly when every
    image of its list resolves; it then returns one manifest per image,
    in order and bearing the image's name, and the blob lists of the
    images concatenated in that order, having resolved each image once
    (an image listed twice is resolved twice). *)
Theorem get_manifests_and_list_of_all_blobs_returns
    (dxf_base : DXFBase) (docker_images : list string)
    (manifests : list Manifest) (blobs : list Blob) :
  (outcome (get_manifests_and_list_of_all_blobs dxf_base docker_images)
   = inr (manifests, blobs) ↔
   ∃ results,
     Forall2 (λ i r, resolve dxf_base i = inr r) docker_images results ∧
     manifests = zip_with (λ i r, mkManifest i r.1) docker_images results ∧
     blobs = concat (snd <$> results)) ∧
  (outcome (get_manifests_and_list_of_all_blobs dxf_base docker_images)
   = inr (manifests, blobs) →
   trace (get_manifests_and_list_of_all_blobs dxf_base docker_images)
   = ResolveManifest <$> docker_images ∧
   docker_image_name <$> manifests = docker_images).
Proof.
  unfold get_manifests_and_list_of_all_blobs. split.
  - apply get_manifests_loop_results.
  - intros Hok. apply get_manifests_loop_ok in Hok as (Ht & Hnames & _). done.
Qed.

Lemma get_manifests_and_list_of_all_blobs_returns_witness :
  outcome (get_manifests_and_list_of_all_blobs Sample.registry
             ["app:1.0"; "base:1.0"; "app:1.0"])
  = inr ([mkManifest "app:1.0" (Str "M-app"); mkManifest "base:1.0" (Str "M-base");
          mkManifest "app:1.0" (Str "M-app")],
         [Sample.layer; Sample.config; Sample.base_at_destination;
          Sample.layer; Sample.config]) ∧
  trace (get_manifests_and_list_of_all_blobs Sample.registry
           ["app:1.0"; "base:1.0"; "app:1.0"])
  = ResolveManifest <$> ["app:1.0"; "base:1.0"; "app:1.0"].
Proof.
  split; [vm_compute; reflexivity|].
  apply (get_manifests_and_list_of_all_blobs_returns Sample.registry
           ["app:1.0"; "base:1.0"; "app:1.0"]
           [mkManifest "app:1.0" (Str "M-app"); mkManifest "base:1.0" (Str "M-base");
            mkManifest "app:1.0" (Str "M-app")]
           [Sample.layer; Sample.config; Sample.base_at_destination;
            Sample.layer; Sample.config]).
  vm_compute; reflexivity.
Defined.

(** ** Writing the manifests (lines 143-149) *)

Lemma write_manifest_entry payload_descriptor manifest :
  match manifest_entry payload_descriptor manifest with
  | Some (dest, body) =>
      write_manifest payload_descriptor manifest = ([ZipEntry dest body], inr ())
  | None => ∃ e, outcome (write_manifest payload_descriptor manifest) = inl e
  end.
Proof.
  unfold manifest_entry, write_manifest, writestr, single_manifest_of, py_in,
    py_getitem.
  destruct (manifests_paths payload_descriptor !! docker_image_name manifest)
    as [dest|]; [|by eexists].
  destruct (content manifest) as [body|d]; simpl.
  - destruct (str_contains "linux/amd64" body); simpl;
      destruct (decide (dest = "")); try done; by eexists.
  - destruct (d !! "linux/amd64") as [body|] eqn:Hd.
    + rewrite bool_decide_eq_true_2 by eauto. simpl.
      destruct (decide (dest = "")); [by eexists|done].
    + rewrite bool_decide_eq_false_2 by (by intros [? ?]). simpl.
      destruct (decide (dest = "")); by eexists.
Qed.

Lemma write_manifests_entries payload_descriptor manifests entries :
  Forall2 (λ m e, manifest_entry payload_descriptor m = Some e) manifests entries →
  write_manifests payload_descriptor manifests
  = ((λ e, ZipEntry e.1 e.2) <$> entries, inr ()).
Proof.
  intros Hall. induction Hall as [|m [dest body] ms es Hm _ IH]; [done|].
  simpl. pose proof (write_manifest_entry payload_descriptor m) as Hw.
  rewrite Hm in Hw. by rewrite Hw, IH.
Qed.

Lemma write_manifests_ok_inv payload_descriptor manifests :
  outcome (write_manifests payload_descriptor manifests) = inr () →
  ∃ entries,
    Forall2 (λ m e, manifest_entry payload_descriptor m = Some e) manifests entries.
Proof.
  induction manifests as [|m ms IH]; [by exists []|].
  simpl. rewrite outcome_bind.
  pose proof (write_manifest_entry payload_descriptor m) as Hw.
  destruct (manifest_entry payload_descriptor m) as [[dest body]|] eqn:Hm.
  - rewrite Hw. simpl. intros [entries Hentries]%IH.
    exists ((dest, body) :: entries). by constructor.
  - by destruct Hw as [e ->].
Qed.

(** X12: when the loop over the manifests returns, every manifest was
    writable (its image has a non-empty path in the descriptor and its
    content is an index with a [linux/amd64] variant or one body not
    containing that text), and the loop wrote exactly one entry per
    manifest, in order, holding the selected body, and nothing else. *)
Theorem write_manifests_returns_only_if
    (payload_descriptor : PayloadDescriptor) (manifests : list Manifest) :
  outcome (write_manifests payload_descriptor manifests) = inr () →
  ∃ entries,
    Forall2 (λ m e, manifest_entry payload_descriptor m = Some e)
      manifests entries ∧
    trace (write_manifests payload_descriptor manifests)
    = (λ e, ZipEntry e.1 e.2) <$> entries.
Proof.
  intros [entries Hentries]%write_manifests_ok_inv.
  exists entries. split; [done|].
  by rewrite (write_manifests_entries _ _ _ Hentries).
Qed.

Lemma write_manifests_returns_only_if_witness :
  write_manifests (from_images Sample.manifest_path ["app:1.0"; "multi:1"] [])
    [mkManifest "app:1.0" (Str "M-app");
     mkManifest "multi:1" (Dict {[ "linux/amd64" := "M-amd64";
                                   "linux/arm64" := "M-arm64" ]})]
  = ([ZipEntry "manifests/app:1.0" "M-app"; ZipEntry "manifests/multi:1" "M-amd64"],
     inr ()) ∧
  ∃ entries,
    Forall2 (λ m e, manifest_entry
                      (from_images Sample.manifest_path ["app:1.0"; "multi:1"] []) m
                    = Some e)
      [mkManifest "app:1.0" (Str "M-app");
       mkManifest "multi:1" (Dict {[ "linux/amd64" := "M-amd64";
                                     "linux/arm64" := "M-arm64" ]})]
      entries.
Proof.
  assert (Hrun : write_manifests
                   (from_images Sample.manifest_path ["app:1.0"; "multi:1"] [])
                   [mkManifest "app:1.0" (Str "M-app");
                    mkManifest "multi:1" (Dict {[ "linux/amd64" := "M-amd64";
                                                  "linux/arm64" := "M-arm64" ]})]
                 = ([ZipEntry "manifests/app:1.0" "M-app";
                     ZipEntry "manifests/multi:1" "M-amd64"], inr ()))
    by (vm_compute; reflexivity).
  split; [exact Hrun|].
  destruct (write_manifests_returns_only_if
              (from_images Sample.manifest_path ["app:1.0"; "multi:1"] [])
              [mkManifest "app:1.0" (Str "M-app");
               mkManifest "multi:1" (Dict {[ "linux/amd64" := "M-amd64";
                                             "linux/arm64" := "M-arm64" ]})])
    as (entries & Hentries & _); [by rewrite Hrun|].
  by exists entries.
Defined.

(** ** [create_zip_from_docker_images]: the whole run *)

Lemma zip_entries_resolve (l : list string) : zip_entries (ResolveManifest <$> l) = [].
Proof. unfold zip_entries. induction l as [|x l IH]; simpl; done. Qed.

Lemma pulls_resolve (l : list string) : pulls (ResolveManifest <$> l) = [].
Proof. unfold pulls. induction l as [|x l IH]; simpl; done. Qed.

Lemma zip_entries_of_entries (entries : list (string * string)) :
  zip_entries ((λ e, ZipEntry e.1 e.2) <$> entries) = entries.
Proof.
  unfold zip_entries. induction entries as [|[p c] es IH]; simpl; [done|].
  by f_equal.
Qed.

Lemma pulls_of_entries (entries : list (string * string)) :
  pulls ((λ e, ZipEntry e.1 e.2) <$> entries) = [].
Proof. unfold pulls. induction entries as [|[p c] es IH]; simpl; done. Qed.

Lemma resolutions_of_entries (entries : list (string * string)) :
  resolutions ((λ e, ZipEntry e.1 e.2) <$> entries) = [].
Proof. unfold resolutions. induction entries as [|[p c] es IH]; simpl; done. Qed.

Lemma list_to_map_fmap_lookup (f : string → string) (l : list string) (i : string) :
  i ∈ l →
  (list_to_map ((λ i, (i, f i)) <$> l) : gmap string string) !! i = Some (f i).
Proof.
  induction l as [|x l IH]; [by intros ?%elem_of_nil|].
  simpl. destruct (decide (x = i)) as [->|Hne].
  - intros _. apply lookup_insert_eq.
  - intros [?|Hin]%elem_of_cons; [congruence|].
    rewrite lookup_insert_ne by done. by apply IH.
Qed.

Lemma from_images_path manifest_path to_transfer already image :
  image ∈ get_images_not_transferred_yet (from_images manifest_path to_transfer already) →
  manifests_paths (from_images manifest_path to_transfer already) !! image
  = Some (manifest_path image).
Proof.
  rewrite get_images_not_transferred_yet_from_images. intros Hin.
  unfold from_images. simpl. by apply list_to_map_fmap_lookup.
Qed.

Lemma get_manifests_loop_all_resolve dxf_base docker_images manifests blobs_to_pull :
  Forall (λ j, ∃ r, resolve dxf_base j = inr r) docker_images →
  ∃ r, get_manifests_loop dxf_base docker_images manifests blobs_to_pull
       = (ResolveManifest <$> docker_images, inr r).
Proof.
  revert manifests blobs_to_pull.
  induction docker_images as [|i rest IH]; intros manifests blobs_to_pull Hall.
  - by eexists.
  - apply Forall_cons in Hall as [[[body blobs] Hi] Hrest]. simpl.
    rewrite (resolve_one_ok _ _ _ _ Hi). simpl.
    destruct (IH (manifests ++ [mkManifest i body]) (blobs_to_pull ++ blobs) Hrest)
      as [r ->].
    by eexists.
Qed.

Section Run.

Variable manifest_path : string → string.
Variable PYDANTIC_V2 : bool.
Variable model_dump_json : PayloadDescriptor → string.
Variable json : PayloadDescriptor → string.
Variable dxf_base : DXFBase.
Variables (docker_images_to_transfer docker_images_already_transferred : list string).

Abbreviation run :=
  (create_zip_from_docker_images manifest_path PYDANTIC_V2 model_dump_json json
     dxf_base docker_images_to_transfer docker_images_already_transferred).

Abbreviation descriptor :=
  (from_images manifest_path docker_images_to_transfer
     docker_images_already_transferred).

Abbreviation needs_work := (get_images_not_transferred_yet descriptor).

Abbreviation serialised p :=
  (if PYDANTIC_V2 then model_dump_json (set_blobs_paths descriptor p)
   else json (set_blobs_paths descriptor p)).

(** The stages of a run that returns. *)
Lemma create_zip_ok_inv :
  outcome run = inr () →
  ∃ manifests blobs_to_pull others blobs_already_transferred paths,
    outcome (get_manifests_and_list_of_all_blobs dxf_base needs_work)
    = inr (manifests, blobs_to_pull) ∧
    outcome (get_manifests_and_list_of_all_blobs dxf_base
               docker_images_already_transferred)
    = inr (others, blobs_already_transferred) ∧
    outcome (add_blobs_to_zip dxf_base blobs_to_pull blobs_already_transferred)
    = inr paths ∧
    outcome (write_manifests (set_blobs_paths descriptor paths) manifests) = inr () ∧
    trace run =
      trace (get_manifests_and_list_of_all_blobs dxf_base needs_work) ++
      trace (get_manifests_and_list_of_all_blobs dxf_base
               docker_images_already_transferred) ++
      trace (add_blobs_to_zip dxf_base blobs_to_pull blobs_already_transferred) ++
      trace (write_manifests (set_blobs_paths descriptor paths) manifests) ++
      [ZipEntry "payload_descriptor.json" (serialised paths)].
Proof.
  unfold create_zip_from_docker_images. cbv zeta. intros Hrun.
  apply bind_ok in Hrun as ([manifests blobs_to_pull] & H1 & Hrun & ->).
  apply bind_ok in Hrun as ([others blobs_already] & H2 & Hrun & ->).
  apply bind_ok in Hrun as (paths & H3 & Hrun & ->).
  apply bind_ok in Hrun as ([] & H4 & _ & ->).
  by exists manifests, blobs_to_pull, others, blobs_already, paths.
Qed.

(** X13: an already-transferred image that does not resolve aborts the
    run just like an image to transfer: once the images that need work
    have resolved, the run raises the exception of the first
    already-transferred image that fails, having done nothing but
    resolutions (no pull, no archive entry, no descriptor). *)
Theorem create_zip_already_transferred_must_resolve :
  Forall (λ j, ∃ r, resolve dxf_base j = inr r) needs_work →
  (∃ image e, image ∈ docker_images_already_transferred ∧
              resolve dxf_base image = inl e) →
  ∃ pre image e post,
    docker_images_already_transferred = pre ++ image :: post ∧
    Forall (λ j, ∃ r, resolve dxf_base j = inr r) pre ∧
    resolve dxf_base image = inl e ∧
    outcome run = inl e ∧
    trace run = ResolveManifest <$> needs_work ++ pre ++ [image].
Proof.
  intros Hneeds (pre & image & e & post & Hsplit & Hpre & Hfail)%first_unresolved.
  exists pre, image, e, post. split_and!; [done..| |].
  - unfold create_zip_from_docker_images, get_manifests_and_list_of_all_blobs.
    cbv zeta.
    destruct (get_manifests_loop_all_resolve dxf_base needs_work [] [] Hneeds)
      as [[manifests blobs_to_pull] ->].
    rewrite outcome_bind_inr. cbv beta iota.
    rewrite Hsplit, (get_manifests_loop_failed _ _ _ _ _ _ _ Hpre Hfail).
    done.
  - unfold create_zip_from_docker_images, get_manifests_and_list_of_all_blobs.
    cbv zeta. rewrite trace_bind.
    destruct (get_manifests_loop_all_resolve dxf_base needs_work [] [] Hneeds)
      as [[manifests blobs_to_pull] ->].
    cbn [trace outcome fst snd]. rewrite trace_bind.
    rewrite Hsplit, (get_manifests_loop_failed _ _ _ _ _ _ _ Hpre Hfail).
    cbn [trace outcome fst snd]. by rewrite app_nil_r, <- fmap_app.
Qed.

End Run.

Lemma create_zip_already_transferred_must_resolve_witness :
  Forall (λ j, ∃ r, resolve Sample.registry j = inr r)
    (get_images_not_transferred_yet
       (from_images Sample.manifest_path ["app:1.0"] ["base:1.0"; "old:0.1"])) ∧
  (∃ image e, image ∈ ["base:1.0"; "old:0.1"] ∧
              resolve Sample.registry image = inl e) ∧
  outcome (Sample.encode ["app:1.0"] ["base:1.0"; "old:0.1"])
  = inl (RegistryError "manifest unknown: old:0.1").
Proof.
  assert (H1 : Forall (λ j, ∃ r, resolve Sample.registry j = inr r)
    (get_images_not_transferred_yet
       (from_images Sample.manifest_path ["app:1.0"] ["base:1.0"; "old:0.1"]))).
  { repeat constructor. by eexists. }
  assert (H2 : ∃ image e, image ∈ ["base:1.0"; "old:0.1"] ∧
                          resolve Sample.registry image = inl e).
  { exists "old:0.1", (RegistryError "manifest unknown: old:0.1").
    split; [compute_done|reflexivity]. }
  split_and!; [done..|].
  destruct (create_zip_already_transferred_must_resolve Sample.manifest_path true
              Sample.dump Sample.dump Sample.registry
              ["app:1.0"] ["base:1.0"; "old:0.1"] H1 H2)
    as (pre & image & e & post & _ & _ & _ & _ & _).
  vm_compute; reflexivity.
Defined.

(** The entries written for the manifests of resolved images: each image
    has a non-empty path, each content a body to select, and the entries
    pair the paths with the bodies. *)
Lemma entries_of_resolved (manifest_path : string → string)
    (payload_descriptor : PayloadDescriptor) (l : list string)
    (results : list (pyval * list Blob)) (entries : list (string * string)) :
  (∀ i, i ∈ l → manifests_paths payload_descriptor !! i = Some (manifest_path i)) →
  length l = length results →
  Forall2 (λ m e, manifest_entry payload_descriptor m = Some e)
    (zip_with (λ i r, mkManifest i r.1) l results) entries →
  Forall2 (λ i r, manifest_path i ≠ "" ∧ is_Some (single_manifest_of r.1)) l results ∧
  ∃ bodies,
    Forall2 (λ r body, single_manifest_of r.1 = Some body) results bodies ∧
    entries = zip (manifest_path <$> l) bodies.
Proof.
  revert results entries. induction l as [|i l IH]; intros results entries Hpath Hlen.
  - destruct results; [|done]. simpl. intros ->%Forall2_nil_inv_l.
    split; [constructor|]. exists []. split; [constructor|done].
  - destruct results as [|r results]; [done|]. simpl.
    intros (e & es & He & Hrest & ->)%Forall2_cons_inv_l.
    destruct (IH results es) as (Hall & bodies & Hbodies & ->).
    { intros j Hj. apply Hpath. by right. }
    { simpl in Hlen. lia. }
    { done. }
    unfold manifest_entry in He. simpl in He.
    rewrite (Hpath i) in He by (by left).
    destruct (decide (manifest_path i = "")) as [|Hne]; [done|].
    destruct (single_manifest_of r.1) as [body|] eqn:Hbody; [|done].
    injection He as <-. split.
    + constructor; [|done]. split; [done|]. rewrite Hbody. eauto.
    + exists (body :: bodies). split; [by constructor|done].
Qed.


Section Account.

Variable manifest_path : string → string.
Variable PYDANTIC_V2 : bool.
Variable model_dump_json : PayloadDescriptor → string.
Variable json : PayloadDescriptor → string.
Variable dxf_base : DXFBase.
Variables (docker_images_to_transfer docker_images_already_transferred : list string).

Abbreviation run :=
  (create_zip_from_docker_images manifest_path PYDANTIC_V2 model_dump_json json
     dxf_base docker_images_to_transfer docker_images_already_transferred).

Abbreviation descriptor :=
  (from_images manifest_path docker_images_to_transfer
     docker_images_already_transferred).

Abbreviation needs_work := (get_images_not_transferred_yet descriptor).

Abbreviation serialised p :=
  (if PYDANTIC_V2 then model_dump_json (set_blobs_paths descriptor p)
   else json (set_blobs_paths descriptor p)).

(** A run that returns, in terms of what the registry answered. *)
Lemma create_zip_account :
  outcome run = inr () →
  ∃ results others paths bodies,
    Forall2 (λ i r, resolve dxf_base i = inr r) needs_work results ∧
    Forall2 (λ i r, resolve dxf_base i = inr r)
      docker_images_already_transferred others ∧
    outcome (add_blobs_to_zip dxf_base (concat (snd <$> results))
               (concat (snd <$> others))) = inr paths ∧
    Forall2 (λ i r, manifest_path i ≠ "" ∧ is_Some (single_manifest_of r.1))
      needs_work results ∧
    Forall2 (λ r body, single_manifest_of r.1 = Some body) results bodies ∧
    trace run =
      (ResolveManifest <$> needs_work ++ docker_images_already_transferred) ++
      trace (add_blobs_to_zip dxf_base (concat (snd <$> results))
               (concat (snd <$> others))) ++
      ((λ e, ZipEntry e.1 e.2) <$> zip (manifest_path <$> needs_work) bodies) ++
      [ZipEntry "payload_descriptor.json" (serialised paths)].
Proof.
  intros (manifests & blobs_to_pull & other_manifests & blobs_already & paths
          & H1 & H2 & H3 & H4 & Htrace)%create_zip_ok_inv.
  pose proof H1 as H1'. pose proof H2 as H2'.
  unfold get_manifests_and_list_of_all_blobs in H1', H2'.
  apply get_manifests_loop_ok in H1' as (Ht1 & _ & _).
  apply get_manifests_loop_ok in H2' as (Ht2 & _ & _).
  apply get_manifests_loop_results in H1 as (results & Hres1 & -> & ->).
  apply get_manifests_loop_results in H2 as (others & Hres2 & -> & ->).
  simpl in *.
  apply write_manifests_ok_inv in H4 as Hentries. destruct Hentries as [entries Hentries].
  destruct (entries_of_resolved manifest_path (set_blobs_paths descriptor paths)
              needs_work results entries) as (Hwritable & bodies & Hbodies & ->).
  { intros i Hi. simpl. by apply from_images_path. }
  { by eapply Forall2_length. }
  { done. }
  exists results, others, paths, bodies. split_and!; [done..|].
  rewrite Htrace. unfold get_manifests_and_list_of_all_blobs.
  rewrite Ht1, Ht2, (write_manifests_entries _ _ _ Hentries).
  by rewrite fmap_app, <- !app_assoc.
Qed.

End Account.

Section Layout.

Variable manifest_path : string → string.
Variable PYDANTIC_V2 : bool.
Variable model_dump_json : PayloadDescriptor → string.
Variable json : PayloadDescriptor → string.
Variable dxf_base : DXFBase.
Variables (docker_images_to_transfer docker_images_already_transferred : list string).

Abbreviation run :=
  (create_zip_from_docker_images manifest_path PYDANTIC_V2 model_dump_json json
     dxf_base docker_images_to_transfer docker_images_already_transferred).

Abbreviation descriptor :=
  (from_images manifest_path docker_images_to_transfer
     docker_images_already_transferred).

Abbreviation needs_work := (get_images_not_transferred_yet descriptor).

Abbreviation serialised p :=
  (if PYDANTIC_V2 then model_dump_json (set_blobs_paths descriptor p)
   else json (set_blobs_paths descriptor p)).

(** X14: a run that returns, in full.  It resolved the images that need
    work and then every already-transferred image, each once and in
    order; it pulled exactly the deduplicated blobs of the former whose
    digest no blob of the latter bears; and the archive holds, in this
    order, one entry per pulled blob, one entry per image that needs work
    (at the image's manifest path, with the selected body), and the
    descriptor. *)
Theorem create_zip_archive_layout :
  outcome run = inr () →
  ∃ results others paths bodies,
    Forall2 (λ i r, resolve dxf_base i = inr r) needs_work results ∧
    Forall2 (λ i r, resolve dxf_base i = inr r)
      docker_images_already_transferred others ∧
    outcome (add_blobs_to_zip dxf_base (concat (snd <$> results))
               (concat (snd <$> others))) = inr paths ∧
    Forall2 (λ r body, single_manifest_of r.1 = Some body) results bodies ∧
    resolutions (trace run) = needs_work ++ docker_images_already_transferred ∧
    pulls (trace run)
    = blob_pull <$> blobs_to_bundle (concat (snd <$> results))
                      (concat (snd <$> others)) ∧
    zip_entries (trace run)
    = ((λ b, ("blobs/" +:+ digest b, blob_bytes dxf_base b)) <$>
         blobs_to_bundle (concat (snd <$> results)) (concat (snd <$> others))) ++
      zip (manifest_path <$> needs_work) bodies ++
      [("payload_descriptor.json", serialised paths)].
Proof.
  intros (results & others & paths & bodies & Hres1 & Hres2 & Hadd & _ & Hbodies
          & Htrace)%create_zip_account.
  exists results, others, paths, bodies. split_and!; [done..| | |].
  - rewrite Htrace, !resolutions_app, resolutions_fmap, resolutions_of_entries.
    unfold add_blobs_to_zip. rewrite add_blobs_loop_no_resolution.
    by rewrite !app_nil_r.
  - rewrite Htrace, !pulls_app, pulls_resolve, pulls_of_entries.
    unfold add_blobs_to_zip in *.
    rewrite (loop_pulls _ _ _ _ _ _ _ Hadd), dom_empty_L, bundled_uniquify.
    by rewrite !app_nil_r.
  - rewrite Htrace, !zip_entries_app, zip_entries_resolve, zip_entries_of_entries.
    unfold add_blobs_to_zip in *.
    by rewrite (loop_zip_entries _ _ _ _ _ _ _ Hadd), dom_empty_L, bundled_uniquify.
Qed.


(** X16: what a returning run needs: every image that needs work resolves,
    has a non-empty manifest path and a content that is an index with a
    [linux/amd64] variant or one body not containing that text, and every
    already-transferred image resolves.  An image published for other
    platforms only therefore makes the run raise (it is not skipped). *)
Theorem create_zip_returns_only_if :
  outcome run = inr () →
  (∀ image, image ∈ needs_work →
            ∃ body blobs,
              resolve dxf_base image = inr (body, blobs) ∧
              manifest_path image ≠ "" ∧
              is_Some (single_manifest_of body)) ∧
  (∀ image, image ∈ docker_images_already_transferred →
            ∃ r, resolve dxf_base image = inr r).
Proof.
  intros (results & others & paths & bodies & Hres1 & Hres2 & _ & Hwritable & _
          & _)%create_zip_account.
  split.
  - intros image (k & Hk)%list_elem_of_lookup.
    destruct (Forall2_lookup_l _ _ _ _ _ Hres1 Hk) as ([body blobs] & Hr & Hres).
    destruct (Forall2_lookup_l _ _ _ _ _ Hwritable Hk) as (r' & Hr' & Hpath & Hsel).
    rewrite Hr in Hr'. injection Hr' as <-. by exists body, blobs.
  - intros image (k & Hk)%list_elem_of_lookup.
    destruct (Forall2_lookup_l _ _ _ _ _ Hres2 Hk) as (r & _ & Hres). eauto.
Qed.

End Layout.

Lemma create_zip_archive_layout_witness :
  outcome (Sample.encode ["app:1.0"; "base:1.0"] ["base:1.0"]) = inr () ∧
  resolutions (trace (Sample.encode ["app:1.0"; "base:1.0"] ["base:1.0"]))
  = get_images_not_transferred_yet
      (from_images Sample.manifest_path ["app:1.0"; "base:1.0"] ["base:1.0"])
    ++ ["base:1.0"].
Proof.
  split; [vm_compute; reflexivity|].
  destruct (create_zip_archive_layout Sample.manifest_path true Sample.dump
              Sample.dump Sample.registry ["app:1.0"; "base:1.0"] ["base:1.0"])
    as (results & others & paths & bodies & _ & _ & _ & _ & Hres & _ & _);
    [vm_compute; reflexivity|].
  exact Hres.
Defined.


Lemma create_zip_returns_only_if_witness :
  outcome (Sample.encode ["app:1.0"; "base:1.0"] ["base:1.0"]) = inr () ∧
  ∃ body blobs,
    resolve Sample.registry "app:1.0" = inr (body, blobs) ∧
    Sample.manifest_path "app:1.0" ≠ "" ∧
    is_Some (single_manifest_of body).
Proof.
  split; [vm_compute; reflexivity|].
  destruct (create_zip_returns_only_if Sample.manifest_path true Sample.dump
              Sample.dump Sample.registry ["app:1.0"; "base:1.0"] ["base:1.0"])
    as [Hneeds _]; [vm_compute; reflexivity|].
  apply Hneeds. compute_done.
Defined.

(** ** [add_blobs_to_zip]: the progress announcements *)

Lemma progress_indices_app t1 t2 :
  progress_indices (t1 ++ t2) = progress_indices t1 ++ progress_indices t2.
Proof. apply omap_app. Qed.

Lemma turn_progress dxf_base all T i b m :
  progress_indices (trace (add_blob_to_zip dxf_base all T i b m)) = [i].
Proof.
  unfold add_blob_to_zip, download_blob_to_zip, print.
  destruct (m !! digest b); [done|].
  destruct (get_blob_with_same_digest T (digest b)); [done|].
  destruct (pull_blob dxf_base (repository b) (digest b)) as [e|[s n]]; [done|].
  by destruct (broken s).
Qed.

Lemma loop_progress dxf_base all T i l m :
  (progress_indices (trace (add_blobs_loop dxf_base all T i l m))
   `prefix_of` seq i (length l)) ∧
  ∀ m', outcome (add_blobs_loop dxf_base all T i l m) = inr m' →
        progress_indices (trace (add_blobs_loop dxf_base all T i l m))
        = seq i (length l).
Proof.
  revert i m. induction l as [|b r IH]; intros i m; [done|].
  rewrite loop_cons_outcome, loop_cons_trace, progress_indices_app, turn_progress.
  destruct (outcome (add_blob_to_zip dxf_base all T i b m)) as [e|m1].
  - split; [|done]. simpl. apply prefix_cons, prefix_nil.
  - destruct (IH (S i) m1) as (Hprefix & Hok). split.
    + simpl. by apply prefix_cons.
    + intros m' Hrun. simpl. f_equal. by eapply Hok.
Qed.

(** X18: the progress text of line 32 is printed once for every blob the
    loop examines, with the blob's index in the to-transfer list: the
    indices printed are 0, 1, 2, ... in order and without gaps, up to the
    blob at which the function raises, and all of them when it returns. *)
Theorem add_blobs_to_zip_progress
    (dxf_base : DXFBase) (blobs_to_pull blobs_already_transferred : list Blob) :
  (progress_indices (trace (add_blobs_to_zip dxf_base blobs_to_pull
                              blobs_already_transferred))
   `prefix_of` seq 0 (length blobs_to_pull)) ∧
  ∀ m,
    outcome (add_blobs_to_zip dxf_base blobs_to_pull blobs_already_transferred)
    = inr m →
    progress_indices (trace (add_blobs_to_zip dxf_base blobs_to_pull
                               blobs_already_transferred))
    = seq 0 (length blobs_to_pull).
Proof.
  unfold add_blobs_to_zip.
  destruct (loop_progress dxf_base blobs_to_pull blobs_already_transferred 0
              blobs_to_pull ∅) as [Hprefix Hok].
  split; [exact Hprefix|]. intros m Hrun. by eapply Hok.
Qed.
